(** * Decryption trial harness of the Mi Note audio attachments (test.py)

    A shallow embedding of [test.py]: the XOR and RC4 primitives, the
    vendor RC4 variant with its 1024 discarded rounds, the AES trial
    wrappers, the MP3 sniffer [is_valid_mp3], the MD5-of-hex-text key
    derivation and the trial loop of [main].

    Bytes are integers ([Z]); a [bytes] or [bytearray] object is a
    [list Z].  Python exceptions are explicit: every operation that can
    raise returns a [result]. *)

From Stdlib Require Import String Ascii DecimalString.
From Stdlib Require Import ZArith List Lia Bool Permutation.
Import ListNotations.
Open Scope Z_scope.

(* ================================================================== *)
(** ** The fragment of the Python runtime the script relies on *)

Module Py.

(** The exceptions that the modelled code can meet. *)
Inductive exn : Type :=
| ZeroDivisionError
| IndexError
| ValueError (msg : string)
| OSError (msg : string).

Inductive result (A : Type) : Type :=
| Ok (a : A)
| Raise (e : exn).
Arguments Ok {A} a.
Arguments Raise {A} e.

Definition bind {A B} (m : result A) (k : A -> result B) : result B :=
  match m with
  | Ok a => k a
  | Raise e => Raise e
  end.

Definition is_ok {A} (m : result A) : bool :=
  match m with Ok _ => true | Raise _ => false end.

Definition len {A} (l : list A) : Z := Z.of_nat (length l).

(** [a % b] on integers: floor modulus, [ZeroDivisionError] when [b = 0]. *)
Definition mod_ (a b : Z) : result Z :=
  if b =? 0 then Raise ZeroDivisionError else Ok (a mod b).

(** [l[i]]: negative indices count from the end, anything outside
    [-len l <= i < len l] raises [IndexError]. *)
Definition getitem (l : list Z) (i : Z) : result Z :=
  if (0 <=? i) && (i <? len l) then Ok (nth (Z.to_nat i) l 0)
  else if (- len l <=? i) && (i <? 0) then Ok (nth (Z.to_nat (i + len l)) l 0)
  else Raise IndexError.

(** The list [l] with position [n] overwritten by [v]. *)
Fixpoint upd (l : list Z) (n : nat) (v : Z) : list Z :=
  match l, n with
  | [], _ => []
  | _ :: t, O => v :: t
  | h :: t, S n' => h :: upd t n' v
  end.

(** [l[i] = v], with the same index rules as [getitem]. *)
Definition setitem (l : list Z) (i v : Z) : result (list Z) :=
  if (0 <=? i) && (i <? len l) then Ok (upd l (Z.to_nat i) v)
  else if (- len l <=? i) && (i <? 0) then Ok (upd l (Z.to_nat (i + len l)) v)
  else Raise IndexError.

(** [range(n)] *)
Definition range (n : nat) : list Z := map Z.of_nat (seq 0 n).

(** A [for] loop threading the loop-carried variables [st]; the first
    exception raised by the body leaves the loop. *)
Fixpoint for_ {A S} (xs : list A) (body : S -> A -> result S) (st : S)
  : result S :=
  match xs with
  | [] => Ok st
  | x :: rest => bind (body st x) (for_ rest body)
  end.

(** [try: m except Exception as e: h e] *)
Definition try_except {A} (m : result A) (h : exn -> result A) : result A :=
  match m with
  | Ok a => Ok a
  | Raise e => h e
  end.

(** [str(e)]: the message the exception carries.  The wording of the
    interpreter's own two exceptions depends on its version; the AES
    wrappers, the only code that formats an exception into bytes, meet
    [ValueError] alone. *)
Definition str_exn (e : exn) : string :=
  match e with
  | ZeroDivisionError => "integer division or modulo by zero"
  | IndexError => "index out of range"
  | ValueError msg => msg
  | OSError msg => msg
  end.

(** ["%d" % n] *)
Definition str_nat (n : nat) : string := NilZero.string_of_uint (Nat.to_uint n).

(** [str.encode()] restricted to the one-byte characters of [string]. *)
Definition encode (s : string) : list Z :=
  map (fun c => Z.of_N (N_of_ascii c)) (list_ascii_of_string s).

End Py.

Import Py.

Notation "x <- m ;; k" := (bind m (fun x => k))
  (at level 61, m at next level, right associativity).
Notation "' p <- m ;; k" := (bind m (fun p => k))
  (at level 61, p pattern, m at next level, right associativity).

(* ================================================================== *)
(** ** Cipher primitives *)

(** [xor_decrypt]: the loop over [enumerate(data)]; [i] is the running
    index and [out] the bytearray built so far. *)
Fixpoint xor_loop (key : list Z) (key_len : Z) (i : Z) (data out : list Z)
  : result (list Z) :=
  match data with
  | [] => Ok out
  | byte :: rest =>
      r <- mod_ i key_len ;;
      k <- getitem key r ;;
      xor_loop key key_len (i + 1) rest (out ++ [Z.lxor byte k])
  end.

Definition xor_decrypt (data key : list Z) : result (list Z) :=
  let key_len := len key in
  xor_loop key key_len 0 data [].

(** [S[i], S[j] = S[j], S[i]]: the right-hand tuple is read first, then
    the two stores happen left to right. *)
Definition swap (S_ : list Z) (i j : Z) : result (list Z) :=
  a <- getitem S_ j ;;
  b <- getitem S_ i ;;
  S1 <- setitem S_ i a ;;
  setitem S1 j b.

(** Body of the key-scheduling loop; the state is [(S, j)]. *)
Definition ksa_step (key : list Z) (st : list Z * Z) (i : Z)
  : result (list Z * Z) :=
  let '(S_, j) := st in
  si <- getitem S_ i ;;
  r <- mod_ i (len key) ;;
  k <- getitem key r ;;
  let j := (j + si + k) mod 256 in
  S_ <- swap S_ i j ;;
  Ok (S_, j).

Definition ksa (key : list Z) : result (list Z * Z) :=
  for_ (range 256) (ksa_step key) (range 256, 0).

(** The index update and swap shared by the discard rounds and the
    keystream loop; the state is [(i, j, S_)]. *)
Definition rc4_state : Type := (Z * Z * list Z)%type.

Definition prga_update (st : rc4_state) : result rc4_state :=
  let '(i, j, S_) := st in
  let i := (i + 1) mod 256 in
  si <- getitem S_ i ;;
  let j := (j + si) mod 256 in
  S_ <- swap S_ i j ;;
  Ok (i, j, S_).

(** Body of the keystream loop, appending one output byte. *)
Definition prga_step (st : rc4_state * list Z) (byte : Z)
  : result (rc4_state * list Z) :=
  let '(st, out) := st in
  '(i, j, S_) <- prga_update st ;;
  a <- getitem S_ i ;;
  b <- getitem S_ j ;;
  t <- getitem S_ ((a + b) mod 256) ;;
  Ok ((i, j, S_), out ++ [Z.lxor byte t]).

Definition prga (st : rc4_state) (data : list Z)
  : result (rc4_state * list Z) :=
  for_ data prga_step (st, []).

(** [for _ in range(n)]: the discard rounds. *)
Definition discard (n : nat) (st : rc4_state) : result rc4_state :=
  for_ (range n) (fun st _ => prga_update st) st.

Definition rc4_decrypt (data key : list Z) : result (list Z) :=
  '(S_, _) <- ksa key ;;
  '(_, out) <- prga (0, 0, S_) data ;;
  Ok out.

Definition rc4mi_decrypt (data key : list Z) : result (list Z) :=
  '(S_, _) <- ksa key ;;
  st <- discard 1024 (0, 0, S_) ;;
  '(_, out) <- prga st data ;;
  Ok out.

(** Bytewise XOR of two byte strings, as long as the shorter one. *)
Fixpoint xor_bytes (a b : list Z) : list Z :=
  match a, b with
  | x :: a', y :: b' => Z.lxor x y :: xor_bytes a' b'
  | _, _ => []
  end.

(* ================================================================== *)
(** ** The AES library interface ([Crypto.Cipher.AES])

    The block cipher itself is the library's; the trial wrappers only
    rely on its interface.  [AESLib] holds the raw 16-byte block
    transformations, and the definitions below lay out the library's
    documented behaviour around them: accepted key sizes, mode set-up
    and the alignment rule of [decrypt]. *)

Record AESLib : Type := {
  block_decrypt : list Z -> list Z -> list Z;
  block_encrypt : list Z -> list Z -> list Z;
  block_decrypt_length :
    forall key b, length b = 16%nat -> length (block_decrypt key b) = 16%nat;
  block_encrypt_length :
    forall key b, length b = 16%nat -> length (block_encrypt key b) = 16%nat
}.

Inductive cipher : Type :=
| ECB (key : list Z)
| CBC (key iv : list Z)
| CTR (key nonce : list Z).

Definition key_size_ok (key : list Z) : bool :=
  let n := length key in
  Nat.eqb n 16 || Nat.eqb n 24 || Nat.eqb n 32.

Definition key_size_error (key : list Z) : exn :=
  ValueError ("Incorrect AES key length (" ++ str_nat (length key) ++ " bytes)").

(** [AES.new(key, AES.MODE_ECB)] *)
Definition AES_new_ECB (key : list Z) : result cipher :=
  if key_size_ok key then Ok (ECB key) else Raise (key_size_error key).

(** [AES.new(key, AES.MODE_CBC, iv)] *)
Definition AES_new_CBC (key iv : list Z) : result cipher :=
  if key_size_ok key then
    if Nat.eqb (length iv) 16 then Ok (CBC key iv)
    else Raise (ValueError "Incorrect IV length (it must be 16 bytes long)")
  else Raise (key_size_error key).

(** [AES.new(key, AES.MODE_CTR, nonce=nonce)] *)
Definition AES_new_CTR (key nonce : list Z) : result cipher :=
  if key_size_ok key then
    if Nat.ltb (length nonce) 16 then Ok (CTR key nonce)
    else Raise (ValueError "Nonce is too long")
  else Raise (key_size_error key).

(** [n] blocks of ECB decryption. *)
Fixpoint ecb_blocks (lib : AESLib) (key : list Z) (n : nat) (data : list Z)
  : list Z :=
  match n with
  | O => []
  | S n' => block_decrypt lib key (firstn 16 data)
              ++ ecb_blocks lib key n' (skipn 16 data)
  end.

(** [n] blocks of CBC decryption, [prev] being the previous ciphertext
    block (the IV at the start). *)
Fixpoint cbc_blocks (lib : AESLib) (key prev : list Z) (n : nat)
         (data : list Z) : list Z :=
  match n with
  | O => []
  | S n' =>
      let blk := firstn 16 data in
      xor_bytes (block_decrypt lib key blk) prev
        ++ cbc_blocks lib key blk n' (skipn 16 data)
  end.

(** The big-endian counter of [n] bytes. *)
Fixpoint be_bytes (n : nat) (v : Z) : list Z :=
  match n with
  | O => []
  | S n' => be_bytes n' (v / 256) ++ [v mod 256]
  end.

(** [n] blocks of CTR keystream starting at counter value [ctr]. *)
Fixpoint ctr_stream (lib : AESLib) (key nonce : list Z) (ctr : Z) (n : nat)
  : list Z :=
  match n with
  | O => []
  | S n' =>
      block_encrypt lib key (nonce ++ be_bytes (16 - length nonce) ctr)
        ++ ctr_stream lib key nonce (ctr + 1) n'
  end.

(** [cipher.decrypt(data)].  In CTR mode the library raises once the
    counter has gone through every value of its [16 - len(nonce)]
    bytes; that error is not described here, the counter wraps. *)
Definition cipher_decrypt (lib : AESLib) (c : cipher) (data : list Z)
  : result (list Z) :=
  match c with
  | ECB key =>
      if Nat.eqb (length data mod 16) 0
      then Ok (ecb_blocks lib key (length data / 16) data)
      else Raise (ValueError "Data must be aligned to block boundary in ECB mode")
  | CBC key iv =>
      if Nat.eqb (length data mod 16) 0
      then Ok (cbc_blocks lib key iv (length data / 16) data)
      else Raise (ValueError "Data must be padded to 16 byte boundary in CBC mode")
  | CTR key nonce =>
      Ok (xor_bytes data
            (ctr_stream lib key nonce 0 ((length data + 15) / 16)))
  end.

(* ================================================================== *)
(** ** AES trial wrappers *)

(** [(len(data) + 15) // 16 * 16] *)
Definition padded_len (data : list Z) : Z := (len data + 15) / 16 * 16.

(** [data + b'\x00' * (padded_len - len(data))] *)
Definition padded_data (data : list Z) : list Z :=
  data ++ repeat 0 (Z.to_nat (padded_len data - len data)).

(** The [except Exception as e] clause of the three wrappers:
    [return f"Error: {e}".encode()]. *)
Definition error_bytes (e : exn) : list Z := encode ("Error: " ++ str_exn e).

Definition aes_ecb_decrypt (lib : AESLib) (data key : list Z)
  : result (list Z) :=
  try_except
    (cipher <- AES_new_ECB key ;;
     out <- cipher_decrypt lib cipher (padded_data data) ;;
     Ok (firstn (length data) out))
    (fun e => Ok (error_bytes e)).

Definition aes_cbc_decrypt (lib : AESLib) (data key : list Z)
           (iv : option (list Z)) : result (list Z) :=
  try_except
    (let iv := match iv with None => repeat 0 16 | Some iv => iv end in
     cipher <- AES_new_CBC key iv ;;
     out <- cipher_decrypt lib cipher (padded_data data) ;;
     Ok (firstn (length data) out))
    (fun e => Ok (error_bytes e)).

Definition aes_ctr_decrypt (lib : AESLib) (data key : list Z)
           (nonce : option (list Z)) : result (list Z) :=
  try_except
    (let nonce := match nonce with None => repeat 0 8 | Some n => n end in
     cipher <- AES_new_CTR key nonce ;;
     cipher_decrypt lib cipher data)
    (fun e => Ok (error_bytes e)).

(* ================================================================== *)
(** ** Content validator *)

(** [data[:3] == b'ID3'] *)
Definition starts_ID3 (data : list Z) : bool :=
  match firstn 3 data with
  | [a; b; c] => (a =? 73) && (b =? 68) && (c =? 51)
  | _ => false
  end.

Definition is_valid_mp3 (data : list Z) : bool :=
  if len data <? 4 then false
  else if starts_ID3 data then true
  else if (nth 0 data 0 =? 255) && (Z.land (nth 1 data 0) 224 =? 224) then true
  else false.

(* ================================================================== *)
(** ** The trial loop of [main] *)

(** What [main] prints during the trials, one constructor per [print]. *)
Inductive line : Type :=
| Header (name : string)
| HexHead (head : list Z)
| AsciiHead (head : list Z)
| ValidMp3
| SavedTo (path : string)
| NotValidMp3
| DecryptFailed (e : exn).

(** The world the loop acts on: the lines printed so far and the writes
    completed so far, oldest first.  A write that raises is not recorded:
    what it leaves at its path (nothing, an empty or a partial file) is
    not described. *)
Record world : Type := {
  stdout : list line;
  files : list (string * list Z)
}.

(** A statement: it changes the world and ends normally or raises. *)
Definition io (A : Type) : Type := world -> world * result A.

Definition io_ret {A} (a : A) : io A := fun w => (w, Ok a).

Definition io_bind {A B} (m : io A) (k : A -> io B) : io B :=
  fun w =>
    match m w with
    | (w', Ok a) => k a w'
    | (w', Raise e) => (w', Raise e)
    end.

Definition io_lift {A} (r : result A) : io A := fun w => (w, r).

(** [try: m except Exception as e: h e]; what [m] printed before it
    raised stays printed. *)
Definition io_try {A} (m : io A) (h : exn -> io A) : io A :=
  fun w =>
    match m w with
    | (w', Ok a) => (w', Ok a)
    | (w', Raise e) => h e w'
    end.

Definition print (l : line) : io unit :=
  fun w => ({| stdout := stdout w ++ [l]; files := files w |}, Ok tt).

(** [with open(path, 'wb') as f: f.write(content)]; [write_error path]
    is the error, if any, that the file system answers with, from [open]
    or from [f.write].  Only a write that completes is recorded in
    [files]. *)
Definition write_file (write_error : string -> option exn)
           (path : string) (content : list Z) : io unit :=
  fun w =>
    match write_error path with
    | Some e => (w, Raise e)
    | None => ({| stdout := stdout w; files := files w ++ [(path, content)] |},
               Ok tt)
    end.

Fixpoint io_for {A} (xs : list A) (body : A -> io unit) : io unit :=
  match xs with
  | [] => io_ret tt
  | x :: rest => io_bind (body x) (fun _ => io_for rest body)
  end.

Notation "m1 >> m2" := (io_bind m1 (fun _ => m2))
  (at level 62, right associativity).

(** [s.replace(old, new)] for a one-character [old]. *)
Fixpoint replace_char (old : ascii) (new : string) (s : string) : string :=
  match s with
  | EmptyString => EmptyString
  | String c rest =>
      if Ascii.eqb c old then new ++ replace_char old new rest
      else String c (replace_char old new rest)
  end.

Definition output_file (name : string) : string :=
  "/tmp/decrypted_"
  ++ replace_char "=" "" (replace_char ")" "" (replace_char "(" ""
       (replace_char " " "_" name)))
  ++ ".mp3".

Definition method : Type :=
  (string * (list Z -> list Z -> result (list Z)))%type.

(** The body of the [try] of one iteration. *)
Definition trial_body (write_error : string -> option exn)
           (name : string) (decrypt_func : list Z -> list Z -> result (list Z))
           (encrypted_data secure_key : list Z) : io unit :=
  io_bind (io_lift (decrypt_func encrypted_data secure_key)) (fun decrypted =>
  print (HexHead (firstn 32 decrypted)) >>
  io_try (print (AsciiHead (firstn 32 decrypted))) (fun _ => io_ret tt) >>
  if is_valid_mp3 decrypted then
    print ValidMp3 >>
    write_file write_error (output_file name) decrypted >>
    print (SavedTo (output_file name))
  else
    print NotValidMp3).

(** One iteration of [for name, decrypt_func in methods]. *)
Definition trial (write_error : string -> option exn)
           (encrypted_data secure_key : list Z) (m : method) : io unit :=
  let '(name, decrypt_func) := m in
  print (Header name) >>
  io_try (trial_body write_error name decrypt_func encrypted_data secure_key)
         (fun e => print (DecryptFailed e)).

Definition run_trials (write_error : string -> option exn)
           (methods : list method) (encrypted_data secure_key : list Z)
  : io unit :=
  io_for methods (trial write_error encrypted_data secure_key).

(** The six entries of [methods]. *)
Definition methods (lib : AESLib) : list method :=
  [ ("简单 XOR"%string, fun d k => xor_decrypt d k);
    ("标准 RC4"%string, fun d k => rc4_decrypt d k);
    ("小米变体 RC4 (1024轮)"%string, fun d k => rc4mi_decrypt d k);
    ("AES-128-ECB"%string, fun d k => aes_ecb_decrypt lib d k);
    ("AES-128-CBC (IV=0)"%string, fun d k => aes_cbc_decrypt lib d k None);
    ("AES-128-CTR (nonce=0)"%string, fun d k => aes_ctr_decrypt lib d k None) ].

(* ================================================================== *)
(** ** The key of [main] *)

(** Value of one hexadecimal digit; [binascii] takes both letter cases. *)
Definition hex_value (c : ascii) : option Z :=
  let n := Z.of_N (N_of_ascii c) in
  if (48 <=? n) && (n <=? 57) then Some (n - 48)
  else if (97 <=? n) && (n <=? 102) then Some (n - 87)
  else if (65 <=? n) && (n <=? 70) then Some (n - 55)
  else None.

Fixpoint unhex_pairs (cs : list ascii) : result (list Z) :=
  match cs with
  | [] => Ok []
  | hi :: lo :: rest =>
      match hex_value hi, hex_value lo with
      | Some h, Some l => bs <- unhex_pairs rest ;; Ok (h * 16 + l :: bs)
      | _, _ => Raise (ValueError "Non-hexadecimal digit found")
      end
  | [_] => Raise (ValueError "Odd-length string")
  end.

(** [binascii.unhexlify]: the length is checked first, then the digits;
    [binascii.Error] is a [ValueError]. *)
Definition unhexlify (s : string) : result (list Z) :=
  let cs := list_ascii_of_string s in
  if Nat.odd (length cs) then Raise (ValueError "Odd-length string")
  else unhex_pairs cs.

Definition secure_key_hex : string := "22eaa6338446d7288c0f7e627c8900c9".

(** The value [unhexlify(secure_key_hex)] takes in [main]
    (see [secure_key_unhexlify]). *)
Definition secure_key : list Z :=
  [34; 234; 166; 51; 132; 70; 215; 40; 140; 15; 126; 98; 124; 137; 0; 201].

(* ================================================================== *)
(** ** The MD5 key derivation of [main]

    [hashlib.md5] is the library's; it is laid out here after RFC 1321
    so that the derivation can be evaluated. *)

Module MD5.

Definition mask32 (x : Z) : Z := x mod 4294967296.

Definition not32 (x : Z) : Z := Z.lxor x 4294967295.

Definition rotl32 (x : Z) (c : Z) : Z :=
  mask32 (Z.lor (Z.shiftl x c) (Z.shiftr x (32 - c))).

(** Per-round shift amounts. *)
Definition shifts : list Z :=
  [ 7; 12; 17; 22; 7; 12; 17; 22; 7; 12; 17; 22; 7; 12; 17; 22;
    5; 9; 14; 20; 5; 9; 14; 20; 5; 9; 14; 20; 5; 9; 14; 20;
    4; 11; 16; 23; 4; 11; 16; 23; 4; 11; 16; 23; 4; 11; 16; 23;
    6; 10; 15; 21; 6; 10; 15; 21; 6; 10; 15; 21; 6; 10; 15; 21 ].

(** [floor(2^32 * abs(sin(i + 1)))] for [i] in 0..63. *)
Definition sines : list Z :=
  [ 3614090360; 3905402710; 606105819; 3250441966;
    4118548399; 1200080426; 2821735955; 4249261313;
    1770035416; 2336552879; 4294925233; 2304563134;
    1804603682; 4254626195; 2792965006; 1236535329;
    4129170786; 3225465664; 643717713; 3921069994;
    3593408605; 38016083; 3634488961; 3889429448;
    568446438; 3275163606; 4107603335; 1163531501;
    2850285829; 4243563512; 1735328473; 2368359562;
    4294588738; 2272392833; 1839030562; 4259657740;
    2763975236; 1272893353; 4139469664; 3200236656;
    681279174; 3936430074; 3572445317; 76029189;
    3654602809; 3873151461; 530742520; 3299628645;
    4096336452; 1126891415; 2878612391; 4237533241;
    1700485571; 2399980690; 4293915773; 2240044497;
    1873313359; 4264355552; 2734768916; 1309151649;
    4149444226; 3174756917; 718787259; 3951481745 ].

(** [n] bytes of [v], least significant first. *)
Fixpoint le_bytes (n : nat) (v : Z) : list Z :=
  match n with
  | O => []
  | S n' => v mod 256 :: le_bytes n' (v / 256)
  end.

(** The little-endian value of a byte string. *)
Fixpoint le_value (bs : list Z) : Z :=
  match bs with
  | [] => 0
  | b :: rest => b + 256 * le_value rest
  end.

(** The message followed by 0x80, zeros up to 56 modulo 64, and the bit
    length on 8 bytes. *)
Definition pad (msg : list Z) : list Z :=
  msg ++ [128]
      ++ repeat 0 (Z.to_nat ((55 - len msg) mod 64))
      ++ le_bytes 8 (8 * len msg).

(** The [n] 32-bit words of a block. *)
Fixpoint words (n : nat) (block : list Z) : list Z :=
  match n with
  | O => []
  | S n' => le_value (firstn 4 block) :: words n' (skipn 4 block)
  end.

Definition md5_state : Type := (Z * Z * Z * Z)%type.

(** Operation [i] (0..63) on the working variables. *)
Definition round (M : list Z) (st : md5_state) (i : Z) : md5_state :=
  let '(A, B, C, D) := st in
  let '(F, g) :=
    if i <? 16 then (Z.lor (Z.land B C) (Z.land (not32 B) D), i)
    else if i <? 32 then
      (Z.lor (Z.land D B) (Z.land (not32 D) C), (5 * i + 1) mod 16)
    else if i <? 48 then (Z.lxor B (Z.lxor C D), (3 * i + 5) mod 16)
    else (Z.lxor C (Z.lor B (not32 D)), (7 * i) mod 16) in
  let F := mask32 (F + A + nth (Z.to_nat i) sines 0 + nth (Z.to_nat g) M 0) in
  (D, mask32 (B + rotl32 F (nth (Z.to_nat i) shifts 0)), B, C).

Definition process_block (st : md5_state) (block : list Z) : md5_state :=
  let '(a0, b0, c0, d0) := st in
  let '(A, B, C, D) := fold_left (round (words 16 block)) (range 64) st in
  (mask32 (a0 + A), mask32 (b0 + B), mask32 (c0 + C), mask32 (d0 + D)).

Fixpoint process (n : nat) (st : md5_state) (data : list Z) : md5_state :=
  match n with
  | O => st
  | S n' => process n' (process_block st (firstn 64 data)) (skipn 64 data)
  end.

Definition init : md5_state := (1732584193, 4023233417, 2562383102, 271733878).

(** [hashlib.md5(msg).digest()] *)
Definition digest (msg : list Z) : list Z :=
  let padded := pad msg in
  let '(a, b, c, d) := process (length padded / 64) init padded in
  le_bytes 4 a ++ le_bytes 4 b ++ le_bytes 4 c ++ le_bytes 4 d.

End MD5.

(** One lowercase hexadecimal digit. *)
Definition hex_digit (v : Z) : ascii :=
  ascii_of_N (Z.to_N (if v <? 10 then 48 + v else 87 + v)).

(** [bytes.hex()]: two lowercase digits per byte. *)
Fixpoint hexlify (bs : list Z) : string :=
  match bs with
  | [] => EmptyString
  | b :: rest => String (hex_digit (b / 16)) (String (hex_digit (b mod 16))
                   (hexlify rest))
  end.

(** [md5_key = hashlib.md5(secure_key_hex.encode()).digest()] *)
Definition md5_key (secure_key_hex : string) : list Z :=
  MD5.digest (encode secure_key_hex).

(** A digit or one of the letters a..f. *)
Definition lower_hex_char (c : ascii) : bool :=
  let n := Z.of_N (N_of_ascii c) in
  ((48 <=? n) && (n <=? 57)) || ((97 <=? n) && (n <=? 102)).

(** The text consists of lowercase hexadecimal digits only. *)
Definition is_lower_hex (s : string) : bool :=
  forallb lower_hex_char (list_ascii_of_string s).

(** The values a [bytes] object can hold. *)
Definition is_bytes (bs : list Z) : Prop := Forall (fun b => 0 <= b < 256) bs.

(* ================================================================== *)
(** ** Functional descriptions used in the statements *)

(** The bytes [xor_decrypt] produces from index [i] on, for a non-empty
    key. *)
Fixpoint xor_stream (key : list Z) (i : Z) (data : list Z) : list Z :=
  match data with
  | [] => []
  | byte :: rest =>
      Z.lxor byte (nth (Z.to_nat (i mod len key)) key 0)
        :: xor_stream key (i + 1) rest
  end.

(** The list a successful [swap] returns. *)
Definition swap_list (S_ : list Z) (i j : Z) : list Z :=
  upd (upd S_ (Z.to_nat i) (nth (Z.to_nat j) S_ 0))
      (Z.to_nat j) (nth (Z.to_nat i) S_ 0).

(** The RC4 state array holds each of 0..255 exactly once. *)
Definition is_perm256 (S_ : list Z) : Prop := Permutation S_ (range 256).

(** Invariant of the running state [(i, j, S)]. *)
Definition state_ok (st : rc4_state) : Prop := is_perm256 (snd st).

(** One index update and swap, as a total function. *)
Definition next_state (st : rc4_state) : rc4_state :=
  let '(i, j, S_) := st in
  let i := (i + 1) mod 256 in
  let j := (j + nth (Z.to_nat i) S_ 0) mod 256 in
  (i, j, swap_list S_ i j).

(** The keystream byte read off a state just after its update. *)
Definition out_byte (st : rc4_state) : Z :=
  let '(i, j, S_) := st in
  nth (Z.to_nat ((nth (Z.to_nat i) S_ 0 + nth (Z.to_nat j) S_ 0) mod 256)) S_ 0.

Fixpoint advance (n : nat) (st : rc4_state) : rc4_state :=
  match n with
  | O => st
  | S n' => advance n' (next_state st)
  end.

Fixpoint keystream (n : nat) (st : rc4_state) : list Z :=
  match n with
  | O => []
  | S n' => let st' := next_state st in out_byte st' :: keystream n' st'
  end.

(** The lines one trial prints, as a function of that trial alone. *)
Definition trial_report (write_error : string -> option exn)
           (encrypted_data secure_key : list Z) (m : method) : list line :=
  let '(name, decrypt_func) := m in
  Header name ::
  match decrypt_func encrypted_data secure_key with
  | Raise e => [DecryptFailed e]
  | Ok decrypted =>
      HexHead (firstn 32 decrypted) :: AsciiHead (firstn 32 decrypted) ::
      if is_valid_mp3 decrypted then
        ValidMp3 ::
        match write_error (output_file name) with
        | Some e => [DecryptFailed e]
        | None => [SavedTo (output_file name)]
        end
      else [NotValidMp3]
  end.

(** The files one trial writes. *)
Definition trial_files (write_error : string -> option exn)
           (encrypted_data secure_key : list Z) (m : method)
  : list (string * list Z) :=
  let '(name, decrypt_func) := m in
  match decrypt_func encrypted_data secure_key with
  | Raise _ => []
  | Ok decrypted =>
      if is_valid_mp3 decrypted then
        match write_error (output_file name) with
        | Some _ => []
        | None => [(output_file name, decrypted)]
        end
      else []
  end.

(** A stand-in for the library's block transformations, with the same
    interface, on which the wrappers can be run on concrete inputs. *)
Definition standin_block (key b : list Z) : list Z :=
  map (fun x => Z.lxor x (nth 0 key 0)) b.

Definition standin_lib : AESLib :=
  {| block_decrypt := standin_block;
     block_encrypt := standin_block;
     block_decrypt_length :=
       fun key b H => eq_trans (length_map _ b) H;
     block_encrypt_length :=
       fun key b H => eq_trans (length_map _ b) H |}.

(** An input all of whose bytes are zero. *)
Definition all_zero (data : list Z) : Prop := Forall (fun b => b = 0) data.

(* ================================================================== *)
(** ** The remaining parts of [test.py] *)

(** [data[:k]]: a negative [k] counts from the end. *)
Definition slice_to (data : list Z) (k : Z) : list Z :=
  if 0 <=? k then firstn (Z.to_nat k) data
  else firstn (Z.to_nat (len data + k)) data.

(** [f'{b:02x}'] for a byte [b] (an element of a [bytes] object, so in
    0..255): two lowercase hexadecimal digits. *)
Definition format_02x (b : Z) : string :=
  String (hex_digit (b / 16)) (String (hex_digit (b mod 16)) EmptyString).

(** [sep.join(parts)] *)
Fixpoint join (sep : string) (parts : list string) : string :=
  match parts with
  | [] => EmptyString
  | [p] => p
  | p :: rest => p ++ sep ++ join sep rest
  end.

(** [print_hex(data, length)]; [length] is 32 when the caller leaves it
    out. *)
Definition print_hex (data : list Z) (length : Z) : string :=
  join " " (map format_02x (slice_to data length)).

Definition miui_iv : list Z :=
  [17; 19; 33; 35; 49; 51; 65; 67; 81; 83; 97; 102; 103; 104; 113; 114].

(** The [try] statement of the extra MIUI test of [main]: AES-CTR with
    the first 8 bytes of [miui_iv] as nonce, called on the library
    directly. *)
Definition miui_ctr_trial (lib : AESLib) (write_error : string -> option exn)
           (encrypted_data secure_key : list Z) : io unit :=
  io_try
    (io_bind (io_lift (AES_new_CTR secure_key (slice_to miui_iv 8)))
       (fun cipher =>
     io_bind (io_lift (cipher_decrypt lib cipher encrypted_data))
       (fun decrypted =>
     print (HexHead (firstn 32 decrypted)) >>
     if is_valid_mp3 decrypted then
       print ValidMp3 >>
       write_file write_error "/tmp/decrypted_miui_ctr.mp3" decrypted >>
       print (SavedTo "/tmp/decrypted_miui_ctr.mp3")
     else
       print NotValidMp3)))
    (fun e => print (DecryptFailed e)).

(** The two entries of the last loop of [main]. *)
Inductive md5_mode : Type := MD5_ECB | MD5_CBC.

(** What that loop computes as [decrypted] for one mode, from [md5_key]. *)
Definition md5_key_decrypt (lib : AESLib) (mode : md5_mode)
           (md5_key encrypted_data : list Z) : result (list Z) :=
  cipher <- match mode with
            | MD5_CBC => AES_new_CBC md5_key (repeat 0 16)
            | MD5_ECB => AES_new_ECB md5_key
            end ;;
  out <- cipher_decrypt lib cipher (padded_data encrypted_data) ;;
  Ok (firstn (length encrypted_data) out).

(* ================================================================== *)
(** ** [main] as a whole *)

(** What [open(audio_file, 'rb')] and [f.read()] come to: the content,
    a [FileNotFoundError], or another exception. *)
Inductive read_outcome : Type :=
| ReadOk (encrypted_data : list Z)
| FileNotFound
| ReadError (e : exn).

(** The lines of [main]: a text, a label followed by the [repr] of a
    bytes object, one of the lines shared with the trial loop, or the
    failure line of the MD5 loop. *)
Inductive main_line : Type :=
| Say (text : string)
| SayBytes (label : string) (bs : list Z)
| Trial (l : line)
| Md5Failed (mode_name : string) (e : exn).

(** What a run of [main] comes to: the lines printed, the writes
    completed (as in [world]) and how it ended. *)
Record main_result : Type := {
  printed : list main_line;
  written : list (string * list Z);
  outcome : result unit
}.

Definition audio_file : string :=
  "/Users/acckion/Library/Application Support/com.minote.MiNoteMac/audio/1315204657.VkSmwhizGV-R1PbeCuDBUw.mp3".

(** The newline character. *)
Definition nl : string := String (ascii_of_nat 10) EmptyString.

(** ["=" * 60] *)
Definition rule : string := string_of_list_ascii (repeat "="%char 60).

(** One iteration of the loop over [("ECB", ...), ("CBC", ...)]. *)
Definition md5_trial_lines (lib : AESLib) (md5_key encrypted_data : list Z)
           (m : string * md5_mode) : list main_line :=
  let '(mode_name, mode) := m in
  match md5_key_decrypt lib mode md5_key encrypted_data with
  | Ok decrypted =>
      Say (nl ++ "AES-128-" ++ mode_name ++ " (MD5 key):")
        :: Trial (HexHead (firstn 32 decrypted))
        :: (if is_valid_mp3 decrypted then [Trial ValidMp3] else [])
  | Raise e => [Md5Failed mode_name e]
  end.

Definition main (lib : AESLib) (write_error : string -> option exn)
           (read : read_outcome) : main_result :=
  let p0 := [Say rule; Say "小米笔记音频文件解密测试"; Say rule] in
  match read with
  | ReadError e => {| printed := p0; written := []; outcome := Raise e |}
  | FileNotFound =>
      {| printed := p0 ++ [Say (nl ++ "❌ 文件不存在: " ++ audio_file);
                           Say "请更新 audio_file 变量为实际的音频文件路径"];
         written := [];
         outcome := Ok tt |}
  | ReadOk encrypted_data =>
      let p1 :=
        p0 ++ [Say (nl ++ "✅ 读取文件成功: " ++ audio_file);
               Say ("   文件大小: " ++ str_nat (length encrypted_data)
                    ++ " 字节")] in
      match unhexlify secure_key_hex with
      | Raise e => {| printed := p1; written := []; outcome := Raise e |}
      | Ok secure_key =>
          let p2 :=
            p1 ++ [Say (nl ++ "密钥信息:");
                   Say ("   Hex: " ++ secure_key_hex);
                   Say ("   长度: " ++ str_nat (length secure_key) ++ " 字节");
                   Say (nl ++ "加密数据头部 (hex): "
                        ++ print_hex encrypted_data 32);
                   SayBytes "加密数据头部 (ascii): "
                            (slice_to encrypted_data 32);
                   Say (nl ++ rule); Say "测试各种解密方法"; Say rule] in
          let '(w1, r1) :=
            run_trials write_error (methods lib) encrypted_data secure_key
              {| stdout := []; files := [] |} in
          let p3 := p2 ++ map Trial (stdout w1) in
          match r1 with
          | Raise e =>
              {| printed := p3; written := files w1; outcome := Raise e |}
          | Ok _ =>
              let p4 :=
                p3 ++ [Say (nl ++ rule); Say "额外测试：MIUI 相册 AES-CTR IV";
                       Say rule;
                       Say ("MIUI IV (hex): " ++ print_hex miui_iv 16)] in
              let '(w2, r2) :=
                miui_ctr_trial lib write_error encrypted_data secure_key
                  {| stdout := []; files := files w1 |} in
              let p5 := p4 ++ map Trial (stdout w2) in
              match r2 with
              | Raise e =>
                  {| printed := p5; written := files w2; outcome := Raise e |}
              | Ok _ =>
                  let md5_key := md5_key secure_key_hex in
                  let p6 :=
                    p5 ++ [Say (nl ++ rule);
                           Say "额外测试：使用 secure_key 的 MD5 作为 AES 密钥";
                           Say rule;
                           Say ("MD5 密钥 (hex): " ++ print_hex md5_key 16)] in
                  {| printed :=
                       p6 ++ flat_map
                               (md5_trial_lines lib md5_key encrypted_data)
                               [("ECB"%string, MD5_ECB);
                                ("CBC"%string, MD5_CBC)];
                     written := files w2;
                     outcome := Ok tt |}
              end
          end
      end
  end.

(** What the MIUI test computes as [decrypted], what it prints and what
    it writes, as functions of its inputs. *)
Definition miui_decrypted (lib : AESLib) (encrypted_data secure_key : list Z)
  : result (list Z) :=
  cipher <- AES_new_CTR secure_key (firstn 8 miui_iv) ;;
  cipher_decrypt lib cipher encrypted_data.

Definition miui_report (lib : AESLib) (write_error : string -> option exn)
           (encrypted_data secure_key : list Z) : list line :=
  match miui_decrypted lib encrypted_data secure_key with
  | Raise e => [DecryptFailed e]
  | Ok decrypted =>
      HexHead (firstn 32 decrypted) ::
      if is_valid_mp3 decrypted then
        ValidMp3 ::
        match write_error "/tmp/decrypted_miui_ctr.mp3"%string with
        | Some e => [DecryptFailed e]
        | None => [SavedTo "/tmp/decrypted_miui_ctr.mp3"%string]
        end
      else [NotValidMp3]
  end.

Definition miui_files (lib : AESLib) (write_error : string -> option exn)
           (encrypted_data secure_key : list Z) : list (string * list Z) :=
  match miui_decrypted lib encrypted_data secure_key with
  | Raise _ => []
  | Ok decrypted =>
      if is_valid_mp3 decrypted then
        match write_error "/tmp/decrypted_miui_ctr.mp3"%string with
        | Some _ => []
        | None => [("/tmp/decrypted_miui_ctr.mp3"%string, decrypted)]
        end
      else []
  end.

(* ================================================================== *)
(** * Properties *)

(* ================================================================== *)
(** ** Facts about the runtime fragment *)

Section RuntimeFacts.

Lemma len_nonneg {A} (l : list A) : 0 <= len l.
Proof. unfold len. lia. Qed.

Lemma len_pos {A} (l : list A) : l <> [] -> 0 < len l.
Proof. destruct l; [congruence | unfold len; simpl; lia]. Qed.

Lemma mod_ok a b : b <> 0 -> mod_ a b = Ok (a mod b).
Proof.
  intros Hb. unfold mod_.
  destruct (Z.eqb_spec b 0); [contradiction | reflexivity].
Qed.

Lemma getitem_ok l i :
  0 <= i < len l -> getitem l i = Ok (nth (Z.to_nat i) l 0).
Proof.
  intros [H0 H1]. unfold getitem.
  apply Z.leb_le in H0. apply Z.ltb_lt in H1.
  now rewrite H0, H1.
Qed.

Lemma setitem_ok l i v :
  0 <= i < len l -> setitem l i v = Ok (upd l (Z.to_nat i) v).
Proof.
  intros [H0 H1]. unfold setitem.
  apply Z.leb_le in H0. apply Z.ltb_lt in H1.
  now rewrite H0, H1.
Qed.

Lemma length_upd l n v : length (upd l n v) = length l.
Proof.
  revert n; induction l as [|h t IH]; intros [|n]; simpl; auto.
Qed.

Lemma len_upd l n v : len (upd l n v) = len l.
Proof. unfold len. now rewrite length_upd. Qed.

Lemma nth_error_upd_same l n v :
  (n < length l)%nat -> nth_error (upd l n v) n = Some v.
Proof.
  revert n; induction l as [|h t IH]; intros [|n] Hn; simpl in *;
    try lia; auto.
  apply IH. lia.
Qed.

Lemma nth_error_upd_other l n m v :
  n <> m -> nth_error (upd l n v) m = nth_error l m.
Proof.
  revert n m; induction l as [|h t IH]; intros [|n] [|m] Hnm; simpl;
    try congruence; auto.
Qed.

Lemma length_range n : length (range n) = n.
Proof. unfold range. now rewrite length_map, length_seq. Qed.

Lemma in_range n x : In x (range n) <-> 0 <= x < Z.of_nat n.
Proof.
  unfold range. rewrite in_map_iff. split.
  - intros (k & <- & Hk). apply in_seq in Hk. lia.
  - intros Hx. exists (Z.to_nat x). split; [lia|].
    apply in_seq. lia.
Qed.

(** A loop whose body keeps an invariant and never raises on the
    values it is run on ends normally, in a state with the invariant. *)
Lemma for_invariant {A St} (P : St -> Prop) (Q : A -> Prop)
      (body : St -> A -> result St) :
  (forall s x, P s -> Q x -> exists s', body s x = Ok s' /\ P s') ->
  forall xs st, Forall Q xs -> P st ->
    exists st', for_ xs body st = Ok st' /\ P st'.
Proof.
  intros Hbody xs. induction xs as [|x xs IH]; intros st HQ HP; simpl.
  - eauto.
  - inversion HQ as [|? ? Hx Hxs]; subst.
    destruct (Hbody st x HP Hx) as (s1 & -> & HP1). simpl.
    now apply IH.
Qed.

Lemma for_app {A St} (body : St -> A -> result St) xs ys st :
  for_ (xs ++ ys) body st = bind (for_ xs body st) (for_ ys body).
Proof.
  revert st; induction xs as [|x xs IH]; intros st; simpl; auto.
  destruct (body st x); simpl; auto.
Qed.

End RuntimeFacts.

(* ================================================================== *)
(** ** XOR keystream *)

Lemma xor_loop_stream key i data out :
  key <> [] ->
  xor_loop key (len key) i data out = Ok (out ++ xor_stream key i data).
Proof.
  intros Hk. pose proof (len_pos key Hk) as Hlen.
  revert i out; induction data as [|b rest IH]; intros i out; simpl.
  - now rewrite app_nil_r.
  - rewrite mod_ok by lia. simpl.
    rewrite getitem_ok by (apply Z.mod_pos_bound; lia). simpl.
    rewrite IH, <- app_assoc. reflexivity.
Qed.

Lemma xor_stream_involutive key i data :
  xor_stream key i (xor_stream key i data) = data.
Proof.
  revert i; induction data as [|b rest IH]; intros i; simpl; auto.
  rewrite IH, Z.lxor_assoc, Z.lxor_nilpotent, Z.lxor_0_r. reflexivity.
Qed.

Lemma xor_decrypt_stream data key :
  key <> [] -> xor_decrypt data key = Ok (xor_stream key 0 data).
Proof.
  intros Hk. unfold xor_decrypt. now rewrite xor_loop_stream.
Qed.

(** C7. XOR round trip: for a non-empty key [K] and a non-empty
    ciphertext [C], [xor_decrypt C K] returns some [P], and running the
    same XOR operation on [P] with [K] returns exactly [C]. *)
Theorem xor_round_trip (C K : list Z) :
  C <> [] -> K <> [] ->
  exists P, xor_decrypt C K = Ok P /\ xor_decrypt P K = Ok C.
Proof.
  intros _ HK. exists (xor_stream K 0 C). split.
  - now apply xor_decrypt_stream.
  - rewrite xor_decrypt_stream by assumption.
    now rewrite xor_stream_involutive.
Qed.

Lemma xor_round_trip_witness :
  exists P, xor_decrypt [0; 0; 0; 0; 0] [170; 187; 204; 221] = Ok P
            /\ xor_decrypt P [170; 187; 204; 221] = Ok [0; 0; 0; 0; 0].
Proof.
  apply (xor_round_trip [0; 0; 0; 0; 0] [170; 187; 204; 221]); discriminate.
Defined.

(* ================================================================== *)
(** ** The validator *)

Lemma starts_ID3_spec data :
  starts_ID3 data = true <-> firstn 3 data = [73; 68; 51].
Proof.
  unfold starts_ID3.
  destruct (firstn 3 data) as [|a [|b [|c [|d t]]]];
    try (split; [discriminate | discriminate]).
  rewrite !andb_true_iff, !Z.eqb_eq. split.
  - intros [[-> ->] ->]. reflexivity.
  - intros H; injection H; auto.
Qed.

(** C2. [is_valid_mp3] accepts exactly the inputs of length at least 4
    that start with the tag ID3 or with 0xFF followed by a byte whose
    top three bits are set; it rejects every input shorter than 4 bytes
    and every all-zero input, and accepts every input of length at least
    4 that starts with ID3. *)
Theorem is_valid_mp3_spec (data : list Z) :
  (is_valid_mp3 data = true <->
     4 <= len data /\
     (firstn 3 data = [73; 68; 51] \/
      (nth 0 data 0 = 255 /\ Z.land (nth 1 data 0) 224 = 224)))
  /\ (len data < 4 -> is_valid_mp3 data = false)
  /\ (all_zero data -> is_valid_mp3 data = false)
  /\ (4 <= len data -> firstn 3 data = [73; 68; 51] ->
      is_valid_mp3 data = true).
Proof.
  assert (Hiff : is_valid_mp3 data = true <->
     4 <= len data /\
     (firstn 3 data = [73; 68; 51] \/
      (nth 0 data 0 = 255 /\ Z.land (nth 1 data 0) 224 = 224))).
  { unfold is_valid_mp3.
    destruct (Z.ltb_spec (len data) 4) as [Hlt | Hge].
    - split; [discriminate | lia].
    - destruct (starts_ID3 data) eqn:Hid.
      + apply starts_ID3_spec in Hid. tauto.
      + assert (Hn : firstn 3 data <> [73; 68; 51]).
        { intros E. apply starts_ID3_spec in E. congruence. }
        destruct (Z.eqb_spec (nth 0 data 0) 255) as [H0 | H0];
          destruct (Z.eqb_spec (Z.land (nth 1 data 0) 224) 224) as [H1 | H1];
          simpl; split; try discriminate; tauto. }
  split; [exact Hiff|]. split; [|split].
  - intros Hlt. apply not_true_is_false. intros E.
    apply Hiff in E. lia.
  - intros Hz. apply not_true_is_false. intros E.
    apply Hiff in E. destruct E as [_ [E | [E _]]].
    + destruct Hz as [|a l Ha Hl]; [discriminate|]. subst a.
      destruct l; discriminate.
    + destruct Hz as [|a l Ha Hl]; simpl in E; lia.
  - intros Hlen Hid. apply Hiff. auto.
Qed.

Lemma is_valid_mp3_spec_witness :
  is_valid_mp3 [73; 68; 51; 4; 0; 0] = true
  /\ is_valid_mp3 [255; 251; 144; 0] = true
  /\ is_valid_mp3 [0; 0; 0; 0; 0] = false
  /\ is_valid_mp3 [73; 68; 51] = false.
Proof.
  split; [|split; [|split]].
  - destruct (is_valid_mp3_spec [73; 68; 51; 4; 0; 0]) as (_ & _ & _ & H).
    apply H; [vm_compute; discriminate | reflexivity].
  - destruct (is_valid_mp3_spec [255; 251; 144; 0]) as (H & _).
    apply H. split; [vm_compute; discriminate | right; split; reflexivity].
  - destruct (is_valid_mp3_spec [0; 0; 0; 0; 0]) as (_ & _ & H & _).
    apply H. repeat constructor.
  - destruct (is_valid_mp3_spec [73; 68; 51]) as (_ & H & _).
    apply H. reflexivity.
Defined.

(* ================================================================== *)
(** ** RC4: the state array stays a permutation *)

Section RC4State.

Lemma perm256_length S_ : is_perm256 S_ -> len S_ = 256.
Proof.
  intros H. apply Permutation_length in H.
  unfold len. rewrite H, length_range. reflexivity.
Qed.

Lemma swap_ok S_ i j :
  0 <= i < len S_ -> 0 <= j < len S_ ->
  swap S_ i j = Ok (swap_list S_ i j).
Proof.
  intros Hi Hj. unfold swap, swap_list.
  rewrite (getitem_ok S_ j Hj), (getitem_ok S_ i Hi). simpl.
  rewrite (setitem_ok S_ i _ Hi). simpl.
  apply setitem_ok. now rewrite len_upd.
Qed.

Lemma swap_list_perm S_ i j :
  0 <= i < len S_ -> 0 <= j < len S_ ->
  Permutation (swap_list S_ i j) S_.
Proof.
  intros Hi Hj. unfold len in Hi, Hj. symmetry.
  apply Permutation_nth_error. unfold swap_list.
  set (ni := Z.to_nat i). set (nj := Z.to_nat j).
  assert (Hni : (ni < length S_)%nat) by (subst ni; lia).
  assert (Hnj : (nj < length S_)%nat) by (subst nj; lia).
  split; [now rewrite !length_upd|].
  exists (fun n => if Nat.eqb n nj then ni
                   else if Nat.eqb n ni then nj else n).
  split.
  - intros x y.
    destruct (Nat.eqb_spec x nj), (Nat.eqb_spec x ni),
             (Nat.eqb_spec y nj), (Nat.eqb_spec y ni); lia.
  - intros n. destruct (Nat.eqb_spec n nj) as [-> | Hn].
    + rewrite nth_error_upd_same by now rewrite length_upd.
      symmetry. now apply nth_error_nth'.
    + rewrite nth_error_upd_other by congruence.
      destruct (Nat.eqb_spec n ni) as [-> | Hn'].
      * rewrite nth_error_upd_same by assumption.
        symmetry. now apply nth_error_nth'.
      * now rewrite nth_error_upd_other by congruence.
Qed.

Lemma swap_list_perm256 S_ i j :
  is_perm256 S_ -> 0 <= i < 256 -> 0 <= j < 256 ->
  is_perm256 (swap_list S_ i j).
Proof.
  intros HS Hi Hj. pose proof (perm256_length _ HS) as HL.
  unfold is_perm256. etransitivity; [|exact HS].
  apply swap_list_perm; lia.
Qed.

Lemma ksa_step_ok key S_ j i :
  key <> [] -> is_perm256 S_ -> 0 <= i < 256 ->
  exists st', ksa_step key (S_, j) i = Ok st' /\ is_perm256 (fst st').
Proof.
  intros Hk HS Hi. pose proof (perm256_length _ HS) as HL.
  pose proof (len_pos key Hk) as Hlen.
  unfold ksa_step.
  rewrite getitem_ok by lia. simpl.
  rewrite mod_ok by lia. simpl.
  rewrite getitem_ok by (apply Z.mod_pos_bound; lia). simpl.
  set (j' := (_ + _ + _) mod 256).
  assert (Hj' : 0 <= j' < 256) by (apply Z.mod_pos_bound; lia).
  rewrite swap_ok by lia. simpl.
  eexists; split; [reflexivity|]. simpl.
  now apply swap_list_perm256.
Qed.

Lemma range_Forall n : Forall (fun i => 0 <= i < Z.of_nat n) (range n).
Proof. apply Forall_forall. intros x. apply in_range. Qed.

Lemma ksa_ok key :
  key <> [] -> exists S_ j, ksa key = Ok (S_, j) /\ is_perm256 S_.
Proof.
  intros Hk. unfold ksa.
  destruct (for_invariant (fun st : list Z * Z => is_perm256 (fst st))
              (fun i => 0 <= i < 256) (ksa_step key)) with
    (xs := range 256) (st := (range 256, 0)) as ([S_ j] & E & HP).
  - intros [S_ j] i HS Hi. now apply ksa_step_ok.
  - apply (range_Forall 256).
  - simpl. unfold is_perm256. reflexivity.
  - exists S_, j. auto.
Qed.

Lemma ksa_empty_key : ksa [] = Raise ZeroDivisionError.
Proof. reflexivity. Qed.

Lemma prga_update_ok st :
  state_ok st -> prga_update st = Ok (next_state st) /\ state_ok (next_state st).
Proof.
  destruct st as [[i j] S_]. unfold state_ok; simpl. intros HS.
  pose proof (perm256_length _ HS) as HL.
  set (i' := (i + 1) mod 256).
  assert (Hi' : 0 <= i' < 256) by (apply Z.mod_pos_bound; lia).
  rewrite getitem_ok by lia. simpl.
  set (j' := (j + _) mod 256).
  assert (Hj' : 0 <= j' < 256) by (apply Z.mod_pos_bound; lia).
  rewrite swap_ok by lia. simpl. split; [reflexivity|].
  now apply swap_list_perm256.
Qed.

Lemma advance_ok n st : state_ok st -> state_ok (advance n st).
Proof.
  revert st; induction n as [|n IH]; intros st H; simpl; auto.
  apply IH. now apply prga_update_ok.
Qed.

Lemma discard_advance n st :
  state_ok st -> discard n st = Ok (advance n st).
Proof.
  unfold discard, range. generalize 0%nat as k.
  revert st; induction n as [|n IH]; intros st k H; simpl; auto.
  destruct (prga_update_ok st H) as [-> H']. simpl. now apply IH.
Qed.

Lemma prga_step_ok st out byte :
  state_ok st ->
  prga_step (st, out) byte
  = Ok (next_state st, out ++ [Z.lxor byte (out_byte (next_state st))]).
Proof.
  intros H. unfold prga_step.
  destruct (prga_update_ok st H) as [-> H']. simpl.
  destruct (next_state st) as [[i j] S_] eqn:E.
  assert (Hi : 0 <= i < 256 /\ 0 <= j < 256).
  { destruct st as [[i0 j0] S0]. simpl in E. injection E as <- <- _.
    split; apply Z.mod_pos_bound; lia. }
  unfold state_ok in H'; simpl in H'.
  pose proof (perm256_length _ H') as HL.
  rewrite !getitem_ok by lia. simpl.
  rewrite getitem_ok by (rewrite HL; apply Z.mod_pos_bound; lia).
  reflexivity.
Qed.

Lemma prga_loop_keystream data st out :
  state_ok st ->
  for_ data prga_step (st, out)
  = Ok (advance (length data) st,
        out ++ xor_bytes data (keystream (length data) st)).
Proof.
  revert st out; induction data as [|b data IH]; intros st out H;
    cbn [for_ length advance keystream xor_bytes].
  - now rewrite app_nil_r.
  - rewrite prga_step_ok by assumption. cbn [bind].
    rewrite IH by now apply prga_update_ok.
    now rewrite <- app_assoc.
Qed.

End RC4State.

(* ================================================================== *)
(** ** RC4: what the two primitives compute *)

Lemma secure_key_unhexlify : unhexlify secure_key_hex = Ok secure_key.
Proof. reflexivity. Qed.

Lemma length_keystream n st : length (keystream n st) = n.
Proof. revert st; induction n; intros st; simpl; auto. Qed.

Lemma keystream_add n m st :
  keystream (n + m) st = keystream n st ++ keystream m (advance n st).
Proof.
  revert st; induction n as [|n IH]; intros st; simpl; auto.
  now rewrite IH.
Qed.

Lemma length_xor_bytes data ks :
  (length data <= length ks)%nat -> length (xor_bytes data ks) = length data.
Proof.
  revert ks; induction data as [|b data IH]; intros [|k ks] H; simpl in *;
    try lia; auto.
  rewrite IH; lia.
Qed.

Lemma xor_bytes_involutive data ks :
  (length data <= length ks)%nat -> xor_bytes (xor_bytes data ks) ks = data.
Proof.
  revert ks; induction data as [|b data IH]; intros [|k ks] H; simpl in *;
    try lia; auto.
  rewrite IH by lia.
  now rewrite Z.lxor_assoc, Z.lxor_nilpotent, Z.lxor_0_r.
Qed.

Lemma xor_bytes_app d1 d2 k1 k2 :
  length d1 = length k1 ->
  xor_bytes (d1 ++ d2) (k1 ++ k2) = xor_bytes d1 k1 ++ xor_bytes d2 k2.
Proof.
  revert k1; induction d1 as [|b d1 IH]; intros [|k k1] H; simpl in *;
    try discriminate; auto.
  rewrite IH by lia. reflexivity.
Qed.

(** With a non-empty key both primitives return normally: the output is
    the data XORed with the keystream of the scheduled state, taken from
    the start ([rc4_decrypt]) or after 1024 updates ([rc4mi_decrypt]). *)
Lemma rc4_keystream_form key :
  key <> [] ->
  exists S_ j, ksa key = Ok (S_, j) /\ is_perm256 S_ /\
    forall data,
      rc4_decrypt data key
      = Ok (xor_bytes data (keystream (length data) (0, 0, S_)))
      /\ rc4mi_decrypt data key
         = Ok (xor_bytes data
                 (keystream (length data) (advance 1024 (0, 0, S_)))).
Proof.
  intros Hk. destruct (ksa_ok key Hk) as (S_ & j & E & HS).
  exists S_, j. split; [exact E|]. split; [exact HS|]. intros data.
  assert (H0 : state_ok (0, 0, S_)) by exact HS.
  unfold rc4_decrypt, rc4mi_decrypt, prga. rewrite E. cbn [bind].
  rewrite discard_advance by assumption. cbn [bind].
  rewrite !prga_loop_keystream by (auto using advance_ok).
  split; reflexivity.
Qed.

(** C8. RC4 round trip: for a non-empty key [K] and a non-empty
    ciphertext [C], [rc4_decrypt C K] returns some [P] and
    [rc4_decrypt P K] returns [C]: the keystream depends on the key and
    the length only. *)
Theorem rc4_round_trip (C K : list Z) :
  C <> [] -> K <> [] ->
  exists P, rc4_decrypt C K = Ok P /\ rc4_decrypt P K = Ok C.
Proof.
  intros _ HK. destruct (rc4_keystream_form K HK) as (S_ & j & _ & _ & H).
  destruct (H C) as [E _]. eexists. split; [exact E|].
  destruct (H (xor_bytes C (keystream (length C) (0, 0, S_)))) as [E' _].
  rewrite E'.
  rewrite length_xor_bytes by (rewrite length_keystream; lia).
  rewrite xor_bytes_involutive by (rewrite length_keystream; lia).
  reflexivity.
Qed.

Lemma rc4_round_trip_witness :
  exists P, rc4_decrypt [1; 2; 3] [75; 101; 121] = Ok P
            /\ rc4_decrypt P [75; 101; 121] = Ok [1; 2; 3].
Proof.
  apply (rc4_round_trip [1; 2; 3] [75; 101; 121]); discriminate.
Defined.

(** C10. RC4 state invariant: for a non-empty key the key schedule ends
    normally with a state array that is a permutation of 0..255, and
    from there any number [n] of discard rounds (none in [rc4_decrypt],
    1024 in [rc4mi_decrypt]) followed by the keystream loop over any
    data ends normally with a permutation again.  As [n] and [data] are
    arbitrary, this holds after each single swap of both loops. *)
Theorem rc4_state_permutation (key : list Z) :
  key <> [] ->
  exists S_ j,
    ksa key = Ok (S_, j) /\ is_perm256 S_ /\
    forall (n : nat) (data : list Z),
    exists st1 st2 out,
      discard n (0, 0, S_) = Ok st1 /\ is_perm256 (snd st1) /\
      prga st1 data = Ok (st2, out) /\ is_perm256 (snd st2).
Proof.
  intros Hk. destruct (ksa_ok key Hk) as (S_ & j & E & HS).
  exists S_, j. split; [exact E|]. split; [exact HS|]. intros n data.
  assert (H0 : state_ok (0, 0, S_)) by exact HS.
  pose proof (advance_ok n _ H0) as H1.
  exists (advance n (0, 0, S_)), (advance (length data) (advance n (0, 0, S_))).
  eexists. split; [now apply discard_advance|]. split; [exact H1|].
  split.
  - unfold prga. now apply prga_loop_keystream.
  - now apply advance_ok.
Qed.

Lemma rc4_state_permutation_witness :
  exists S_ j,
    ksa [75; 101; 121] = Ok (S_, j) /\ is_perm256 S_ /\
    forall (n : nat) (data : list Z),
    exists st1 st2 out,
      discard n (0, 0, S_) = Ok st1 /\ is_perm256 (snd st1) /\
      prga st1 data = Ok (st2, out) /\ is_perm256 (snd st2).
Proof.
  apply (rc4_state_permutation [75; 101; 121]). discriminate.
Defined.

(* ================================================================== *)
(** ** The trial loop: one trial cannot stop another *)

Section Trials.

Variable write_error : string -> option exn.
Variables encrypted_data key : list Z.

Lemma trial_effect (m : method) (w : world) :
  trial write_error encrypted_data key m w
  = ({| stdout := stdout w ++ trial_report write_error encrypted_data key m;
        files := files w ++ trial_files write_error encrypted_data key m |},
     Ok tt).
Proof.
  destruct m as [name f]. destruct w as [out fs].
  unfold trial, trial_body, trial_report, trial_files, io_bind, io_try,
    io_lift, io_ret, print, write_file.
  cbn [stdout files].
  destruct (f encrypted_data key) as [d | e]; cbn [stdout files].
  - destruct (is_valid_mp3 d); cbn [stdout files].
    + destruct (write_error (output_file name)); cbn [stdout files];
        rewrite <- ?app_assoc, ?app_nil_r; reflexivity.
    + rewrite <- ?app_assoc, ?app_nil_r. reflexivity.
  - rewrite <- ?app_assoc, ?app_nil_r. reflexivity.
Qed.

Lemma run_trials_effect (ms : list method) (w : world) :
  run_trials write_error ms encrypted_data key w
  = ({| stdout := stdout w
                  ++ flat_map (trial_report write_error encrypted_data key) ms;
        files := files w
                 ++ flat_map (trial_files write_error encrypted_data key) ms |},
     Ok tt).
Proof.
  unfold run_trials. revert w.
  induction ms as [|m ms IH]; intros w; cbn [io_for flat_map].
  - destruct w. unfold io_ret. cbn [stdout files].
    now rewrite !app_nil_r.
  - unfold io_bind. rewrite trial_effect, IH. cbn [stdout files].
    now rewrite <- !app_assoc.
Qed.

End Trials.

(** C1. Failure isolation of the trial loop: whatever the registry
    [ms] of decryption methods, the data, the key and the answers of the
    file system, the loop ends normally (no exception leaves it), and
    what it prints is, in registry order, the report of each method,
    which depends on that method alone.  A method that raises [e] is
    reported by its header followed by the failure line for [e]; the
    methods after it are run and reported all the same. *)
Theorem trial_failure_isolation
        (write_error : string -> option exn) (ms : list method)
        (encrypted_data key : list Z) (w : world) :
  let (w', r) := run_trials write_error ms encrypted_data key w in
  r = Ok tt
  /\ stdout w'
     = stdout w ++ flat_map (trial_report write_error encrypted_data key) ms
  /\ (forall name f e,
        f encrypted_data key = Raise e ->
        trial_report write_error encrypted_data key (name, f)
        = [Header name; DecryptFailed e])
  /\ (forall before after name f e,
        ms = before ++ (name, f) :: after ->
        f encrypted_data key = Raise e ->
        stdout w'
        = stdout w
          ++ flat_map (trial_report write_error encrypted_data key) before
          ++ [Header name; DecryptFailed e]
          ++ flat_map (trial_report write_error encrypted_data key) after).
Proof.
  rewrite run_trials_effect. cbn [stdout].
  split; [reflexivity|]. split; [reflexivity|].
  assert (Hfail : forall name f e,
             f encrypted_data key = Raise e ->
             trial_report write_error encrypted_data key (name, f)
             = [Header name; DecryptFailed e]).
  { intros name f e E. unfold trial_report. now rewrite E. }
  split; [exact Hfail|].
  intros before after name f e -> E.
  rewrite flat_map_app. cbn [flat_map]. now rewrite (Hfail name f e E).
Qed.

Lemma trial_failure_isolation_witness :
  let run := run_trials (fun _ => None) (methods standin_lib) [1; 2; 3] []
               {| stdout := []; files := [] |} in
  snd run = Ok tt
  /\ stdout (fst run)
     = flat_map (trial_report (fun _ => None) [1; 2; 3] [])
         (methods standin_lib)
  /\ firstn 4 (stdout (fst run))
     = [Header "简单 XOR"; DecryptFailed ZeroDivisionError;
        Header "标准 RC4"; DecryptFailed ZeroDivisionError].
Proof.
  intros run.
  pose proof (trial_failure_isolation (fun _ => None) (methods standin_lib)
                [1; 2; 3] [] {| stdout := []; files := [] |}) as H.
  fold run in H. destruct run as [w' r]. destruct H as (H1 & H2 & _).
  cbn [fst snd stdout app] in *. rewrite H2.
  split; [assumption|]. split; reflexivity.
Defined.

(* ================================================================== *)
(** ** AES trials: padding and truncation *)

Section AESTrials.

Context (lib : AESLib).

Lemma padded_len_bounds data :
  len data <= padded_len data < len data + 16
  /\ padded_len data mod 16 = 0.
Proof.
  unfold padded_len. pose proof (len_nonneg data) as H0.
  pose proof (Z.div_mod (len data + 15) 16 ltac:(lia)) as Hd.
  pose proof (Z.mod_pos_bound (len data + 15) 16 ltac:(lia)) as Hm.
  split; [lia|]. apply Z.mod_mul. lia.
Qed.

Lemma padded_len_next data :
  len data mod 16 <> 0 -> padded_len data = 16 * (len data / 16 + 1).
Proof.
  intros Hn. unfold padded_len.
  pose proof (Z.div_mod (len data) 16 ltac:(lia)) as Hd.
  pose proof (Z.mod_pos_bound (len data) 16 ltac:(lia)) as Hm.
  assert (E : (len data + 15) / 16 = len data / 16 + 1).
  { symmetry. apply (Z.div_unique _ _ _ (len data mod 16 - 1)); lia. }
  rewrite E. lia.
Qed.

Lemma len_padded_data data : len (padded_data data) = padded_len data.
Proof.
  unfold padded_data, len. rewrite length_app, repeat_length.
  pose proof (padded_len_bounds data) as [H _]. unfold len in *. lia.
Qed.

Lemma length_padded_data data :
  exists n, length (padded_data data) = (16 * n)%nat
            /\ Z.of_nat n = padded_len data / 16.
Proof.
  pose proof (len_padded_data data) as HL.
  pose proof (padded_len_bounds data) as [Hb Hm].
  pose proof (len_nonneg data) as H0.
  apply Z.mod_divide in Hm; [|lia]. destruct Hm as [q Hq].
  exists (Z.to_nat q). unfold len in HL. split.
  - lia.
  - rewrite Hq, Z.div_mul by lia. lia.
Qed.

Lemma length_ecb_blocks key n data :
  length data = (16 * n)%nat ->
  length (ecb_blocks lib key n data) = (16 * n)%nat.
Proof.
  revert data; induction n as [|n IH]; intros data H; cbn [ecb_blocks].
  - reflexivity.
  - rewrite length_app, block_decrypt_length, IH.
    + lia.
    + rewrite length_skipn. lia.
    + rewrite length_firstn. lia.
Qed.

Lemma length_cbc_blocks key prev n data :
  length prev = 16%nat -> length data = (16 * n)%nat ->
  length (cbc_blocks lib key prev n data) = (16 * n)%nat.
Proof.
  revert prev data; induction n as [|n IH]; intros prev data Hp H;
    cbn [cbc_blocks].
  - reflexivity.
  - assert (Hf : length (firstn 16 data) = 16%nat)
      by (rewrite length_firstn; lia).
    rewrite length_app, length_xor_bytes, block_decrypt_length, IH; auto.
    + lia.
    + rewrite length_skipn. lia.
    + rewrite block_decrypt_length; auto. lia.
Qed.

Lemma cipher_decrypt_aligned c data n :
  length data = (16 * n)%nat ->
  match c with
  | ECB _ => True
  | CBC _ iv => length iv = 16%nat
  | CTR _ _ => False
  end ->
  exists out, cipher_decrypt lib c data = Ok out
              /\ length out = length data.
Proof.
  intros H Hc.
  assert (Hm : (length data mod 16 = 0)%nat)
    by (rewrite H, Nat.mul_comm; apply Nat.Div0.mod_mul).
  assert (Hd : (length data / 16 = n)%nat)
    by (rewrite H, Nat.mul_comm; apply Nat.div_mul; lia).
  destruct c as [key | key iv | key nonce]; [| |contradiction];
    cbn [cipher_decrypt]; rewrite Hm, Hd; cbn [Nat.eqb];
    eexists; (split; [reflexivity|]); rewrite H.
  - now apply length_ecb_blocks.
  - now apply length_cbc_blocks.
Qed.

Lemma key_size_ok_16 key : length key = 16%nat -> key_size_ok key = true.
Proof. intros H. unfold key_size_ok. now rewrite H. Qed.

End AESTrials.

(** C5. For a 16-byte key and a ciphertext whose length is not a
    multiple of 16, [aes_ecb_decrypt] and [aes_cbc_decrypt] (default IV)
    hand the library the input followed by zero bytes up to the next
    multiple of 16, the library returns that many bytes, and the
    wrappers return the first [len data] of them: an output of exactly
    the original length, which is not the padded length. *)
Theorem aes_zero_pad_truncate (lib : AESLib) (data key : list Z) :
  length key = 16%nat ->
  len data mod 16 <> 0 ->
  let next := 16 * (len data / 16 + 1) in
  let padded := data ++ repeat 0 (Z.to_nat (next - len data)) in
  exists ecb_out cbc_out,
    cipher_decrypt lib (ECB key) padded = Ok ecb_out
    /\ cipher_decrypt lib (CBC key (repeat 0 16)) padded = Ok cbc_out
    /\ len padded = next /\ len ecb_out = next /\ len cbc_out = next
    /\ aes_ecb_decrypt lib data key = Ok (firstn (length data) ecb_out)
    /\ aes_cbc_decrypt lib data key None = Ok (firstn (length data) cbc_out)
    /\ length (firstn (length data) ecb_out) = length data
    /\ length (firstn (length data) cbc_out) = length data
    /\ len data < next.
Proof.
  intros Hk Hn next padded.
  pose proof (padded_len_next data Hn) as Hnext.
  pose proof (padded_len_bounds data) as [Hb _].
  assert (Hp : padded = padded_data data)
    by (unfold padded, padded_data, next; now rewrite Hnext).
  destruct (length_padded_data data) as (n & Hlen & _).
  destruct (cipher_decrypt_aligned lib (ECB key) (padded_data data) n Hlen I)
    as (eo & He & Hel).
  destruct (cipher_decrypt_aligned lib (CBC key (repeat 0 16))
              (padded_data data) n Hlen (repeat_length 0 16))
    as (co & Hc & Hcl).
  pose proof (len_padded_data data) as HL.
  exists eo, co. rewrite Hp.
  assert (Hlt : len data < next).
  { assert (len data <> padded_len data).
    { intros E. pose proof (padded_len_bounds data) as [_ Hm].
      rewrite <- E in Hm. contradiction. }
    unfold next. lia. }
  repeat split; try assumption.
  - unfold next. lia.
  - unfold len in *. unfold next. lia.
  - unfold len in *. unfold next. lia.
  - unfold aes_ecb_decrypt, AES_new_ECB.
    rewrite key_size_ok_16 by assumption. cbn [bind]. rewrite He.
    reflexivity.
  - unfold aes_cbc_decrypt, AES_new_CBC.
    rewrite key_size_ok_16 by assumption.
    rewrite repeat_length. cbn [Nat.eqb bind]. rewrite Hc. reflexivity.
  - rewrite length_firstn. unfold len in *. lia.
  - rewrite length_firstn. unfold len in *. lia.
Qed.

Lemma aes_zero_pad_truncate_witness :
  let data := [1; 2; 3; 4; 5] in
  let next := 16 * (len data / 16 + 1) in
  let padded := data ++ repeat 0 (Z.to_nat (next - len data)) in
  exists ecb_out cbc_out,
    cipher_decrypt standin_lib (ECB secure_key) padded = Ok ecb_out
    /\ cipher_decrypt standin_lib (CBC secure_key (repeat 0 16)) padded
       = Ok cbc_out
    /\ len padded = next /\ len ecb_out = next /\ len cbc_out = next
    /\ aes_ecb_decrypt standin_lib data secure_key
       = Ok (firstn (length data) ecb_out)
    /\ aes_cbc_decrypt standin_lib data secure_key None
       = Ok (firstn (length data) cbc_out)
    /\ length (firstn (length data) ecb_out) = length data
    /\ length (firstn (length data) cbc_out) = length data
    /\ len data < next.
Proof.
  apply (aes_zero_pad_truncate standin_lib [1; 2; 3; 4; 5] secure_key).
  - reflexivity.
  - vm_compute. discriminate.
Defined.

(* ================================================================== *)
(** ** AES trials: a key the library rejects *)

Lemma error_bytes_not_mp3 e : is_valid_mp3 (error_bytes e) = false.
Proof.
  unfold error_bytes, encode. cbn [append list_ascii_of_string map].
  unfold is_valid_mp3, starts_ID3.
  destruct (len _ <? 4); reflexivity.
Qed.

(** In [aes_ecb_decrypt] a 5-byte key does not surface as an error: the
    wrapper returns the text of the library's message as ordinary bytes. *)
Lemma aes_ecb_five_byte_key :
  key_size_ok [1; 2; 3; 4; 5] = false
  /\ aes_ecb_decrypt standin_lib [0; 1; 2] [1; 2; 3; 4; 5]
     = Ok (encode "Error: Incorrect AES key length (5 bytes)")
  /\ is_ok (aes_ecb_decrypt standin_lib [0; 1; 2] [1; 2; 3; 4; 5]) = true.
Proof. repeat split. Qed.

(** C6 (as the code has it).  For a key whose length the library
    rejects and any ciphertext, the three AES wrappers do not raise:
    they catch the library's [ValueError] and return, as an ordinary
    byte string, the text [Error: ] followed by the library's message.
    The validator rejects that byte string, so the trial loop reports
    the trial like any decryption that did not yield an MP3 (header, hex
    and ASCII heads of the message text, "not a valid MP3"), and goes on
    with the remaining methods. *)
Theorem aes_rejected_key_in_band (lib : AESLib) (data key : list Z) :
  key_size_ok key = false ->
  let msg := error_bytes (key_size_error key) in
  aes_ecb_decrypt lib data key = Ok msg
  /\ (forall iv, aes_cbc_decrypt lib data key iv = Ok msg)
  /\ (forall nonce, aes_ctr_decrypt lib data key nonce = Ok msg)
  /\ is_valid_mp3 msg = false
  /\ (forall write_error name,
        trial_report write_error data key
          (name, fun d k => aes_ecb_decrypt lib d k)
        = [Header name; HexHead (firstn 32 msg); AsciiHead (firstn 32 msg);
           NotValidMp3])
  /\ (forall write_error before after name w,
        stdout (fst (run_trials write_error
                       (before ++ (name, fun d k => aes_ecb_decrypt lib d k)
                               :: after) data key w))
        = stdout w
          ++ flat_map (trial_report write_error data key) before
          ++ [Header name; HexHead (firstn 32 msg); AsciiHead (firstn 32 msg);
              NotValidMp3]
          ++ flat_map (trial_report write_error data key) after).
Proof.
  intros Hk msg.
  assert (He : aes_ecb_decrypt lib data key = Ok msg).
  { unfold aes_ecb_decrypt, AES_new_ECB. now rewrite Hk. }
  assert (Hr : forall write_error name,
             trial_report write_error data key
               (name, fun d k => aes_ecb_decrypt lib d k)
             = [Header name; HexHead (firstn 32 msg);
                AsciiHead (firstn 32 msg); NotValidMp3]).
  { intros we name. unfold trial_report. rewrite He.
    subst msg. now rewrite error_bytes_not_mp3. }
  split; [exact He|]. split; [|split; [|split; [|split]]].
  - intros iv. unfold aes_cbc_decrypt, AES_new_CBC. now rewrite Hk.
  - intros nonce. unfold aes_ctr_decrypt, AES_new_CTR. now rewrite Hk.
  - apply error_bytes_not_mp3.
  - exact Hr.
  - intros we before after name w. rewrite run_trials_effect.
    cbn [fst stdout]. rewrite flat_map_app. cbn [flat_map].
    now rewrite Hr.
Qed.

Lemma aes_rejected_key_in_band_witness :
  let msg := error_bytes (key_size_error [1; 2; 3; 4; 5]) in
  aes_ecb_decrypt standin_lib [0; 1; 2] [1; 2; 3; 4; 5] = Ok msg
  /\ (forall iv, aes_cbc_decrypt standin_lib [0; 1; 2] [1; 2; 3; 4; 5] iv
                 = Ok msg)
  /\ (forall nonce, aes_ctr_decrypt standin_lib [0; 1; 2] [1; 2; 3; 4; 5] nonce
                    = Ok msg)
  /\ is_valid_mp3 msg = false
  /\ (forall write_error name,
        trial_report write_error [0; 1; 2] [1; 2; 3; 4; 5]
          (name, fun d k => aes_ecb_decrypt standin_lib d k)
        = [Header name; HexHead (firstn 32 msg); AsciiHead (firstn 32 msg);
           NotValidMp3])
  /\ (forall write_error before after name w,
        stdout (fst (run_trials write_error
                       (before
                        ++ (name, fun d k => aes_ecb_decrypt standin_lib d k)
                        :: after) [0; 1; 2] [1; 2; 3; 4; 5] w))
        = stdout w
          ++ flat_map (trial_report write_error [0; 1; 2] [1; 2; 3; 4; 5])
               before
          ++ [Header name; HexHead (firstn 32 msg); AsciiHead (firstn 32 msg);
              NotValidMp3]
          ++ flat_map (trial_report write_error [0; 1; 2] [1; 2; 3; 4; 5])
               after).
Proof.
  apply (aes_rejected_key_in_band standin_lib [0; 1; 2] [1; 2; 3; 4; 5]).
  reflexivity.
Defined.

(* ================================================================== *)
(** ** The vendor variant against standard RC4 *)

(** With the one-byte key 19 the first keystream byte is 88 both at the
    start and after 1024 discarded rounds: on a one-byte ciphertext the
    two primitives agree. *)
Lemma rc4mi_agrees_with_rc4_on_key_19 :
  rc4_decrypt [0] [19] = Ok [88] /\ rc4mi_decrypt [0] [19] = Ok [88].
Proof. split; vm_compute; reflexivity. Qed.

Lemma skipn_xor_prefix n pre data ks1 ks2 :
  length pre = n -> length ks1 = n ->
  skipn n (xor_bytes (pre ++ data) (ks1 ++ ks2)) = xor_bytes data ks2.
Proof.
  intros Hp Hk. rewrite xor_bytes_app by congruence.
  rewrite skipn_app, length_xor_bytes by lia.
  rewrite skipn_all2 by (rewrite length_xor_bytes; lia).
  rewrite Hp, Nat.sub_diag. reflexivity.
Qed.

Lemma keystream_offset n data st :
  xor_bytes data (keystream (length data) (advance n st))
  = skipn n (xor_bytes (repeat 0 n ++ data)
               (keystream (length (repeat 0 n ++ data)) st)).
Proof.
  rewrite length_app, repeat_length, keystream_add.
  symmetry. apply skipn_xor_prefix.
  - apply repeat_length.
  - apply length_keystream.
Qed.

(** C3 (as the code has it).  The vendor variant runs the same key
    schedule and then exactly 1024 discard rounds before the keystream
    loop, so for a non-empty key its output on [C] is the standard RC4
    output on 1024 filler bytes followed by [C], with the first 1024
    bytes dropped: the same keystream, 1024 positions later.  For the
    key of [main] the two outputs differ on every non-empty ciphertext. *)
Theorem rc4mi_keystream_offset :
  (forall C K : list Z,
      K <> [] ->
      exists P0,
        rc4_decrypt (repeat 0 1024 ++ C) K = Ok P0
        /\ rc4mi_decrypt C K = Ok (skipn 1024 P0))
  /\ (forall C : list Z,
        C <> [] -> rc4mi_decrypt C secure_key <> rc4_decrypt C secure_key).
Proof.
  split.
  - intros C K HK.
    destruct (rc4_keystream_form K HK) as (S_ & j & _ & _ & H).
    destruct (H (repeat 0 1024 ++ C)) as [E _]. destruct (H C) as [_ E'].
    eexists. split; [exact E|]. rewrite E'. apply (f_equal Ok).
    exact (keystream_offset 1024 C (0, 0, S_)).
  - intros C HC.
    assert (HK : secure_key <> []) by discriminate.
    assert (V0 : rc4_decrypt [0] secure_key = Ok [150])
      by (vm_compute; reflexivity).
    assert (V1 : rc4mi_decrypt [0] secure_key = Ok [122])
      by (vm_compute; reflexivity).
    destruct (rc4_keystream_form secure_key HK) as (S_ & j & _ & _ & H).
    set (st1 := advance 1024 (0, 0, S_)) in *. clearbody st1.
    set (st0 := (0, 0, S_)) in *. clearbody st0.
    destruct (H [0]) as [E0 E1]. rewrite V0 in E0. rewrite V1 in E1.
    cbn [length keystream xor_bytes] in E0, E1.
    rewrite Z.lxor_0_l in E0, E1.
    injection E0 as E0. injection E1 as E1.
    destruct C as [|c C]; [congruence|].
    destruct (H (c :: C)) as [E E']. rewrite E, E'.
    cbn [length keystream]. rewrite <- E0, <- E1.
    intros Heq. injection Heq as Hh _.
    apply (f_equal (Z.lxor c)) in Hh.
    rewrite <- !Z.lxor_assoc, Z.lxor_nilpotent, !Z.lxor_0_l in Hh.
    discriminate.
Qed.

(* ================================================================== *)
(** ** A zero-length key *)

(** With an empty key and an empty ciphertext [xor_decrypt] returns
    normally; with a non-empty ciphertext what it raises is the
    interpreter's [ZeroDivisionError]. *)
Lemma xor_decrypt_empty_key_cases :
  xor_decrypt [] [] = Ok [] /\ xor_decrypt [1] [] = Raise ZeroDivisionError.
Proof. split; reflexivity. Qed.

(** C4 (as the code has it).  With a zero-length key, [xor_decrypt]
    raises the interpreter's [ZeroDivisionError] (from [i % key_len];
    the code has no check of its own) on every non-empty ciphertext and
    returns the empty output on the empty ciphertext; [rc4_decrypt] and
    [rc4mi_decrypt] raise [ZeroDivisionError] on every ciphertext.  In
    the trial loop the exception is caught and printed as the failure
    line of that trial: [trial] prints the header and the failure line,
    writes nothing and ends normally, and the loop of [main] over its
    registry, run with the empty key on a non-empty ciphertext, prints
    header and failure line for the three stream methods, goes on with
    the three AES methods and ends normally. *)
Theorem empty_key_zero_division :
  (forall C, C <> [] -> xor_decrypt C [] = Raise ZeroDivisionError)
  /\ xor_decrypt [] [] = Ok []
  /\ (forall C, rc4_decrypt C [] = Raise ZeroDivisionError)
  /\ (forall C, rc4mi_decrypt C [] = Raise ZeroDivisionError)
  /\ (forall write_error name f C,
        f C [] = Raise ZeroDivisionError ->
        trial_report write_error C [] (name, f)
        = [Header name; DecryptFailed ZeroDivisionError])
  /\ (forall write_error name f C w,
        f C [] = Raise ZeroDivisionError ->
        trial write_error C [] (name, f) w
        = ({| stdout := stdout w
                        ++ [Header name; DecryptFailed ZeroDivisionError];
              files := files w |}, Ok tt))
  /\ (forall lib write_error C w,
        C <> [] ->
        let msg := error_bytes (key_size_error []) in
        run_trials write_error (methods lib) C [] w
        = ({| stdout :=
                stdout w
                ++ [Header "简单 XOR"; DecryptFailed ZeroDivisionError;
                    Header "标准 RC4"; DecryptFailed ZeroDivisionError;
                    Header "小米变体 RC4 (1024轮)";
                    DecryptFailed ZeroDivisionError;
                    Header "AES-128-ECB"; HexHead (firstn 32 msg);
                    AsciiHead (firstn 32 msg); NotValidMp3;
                    Header "AES-128-CBC (IV=0)"; HexHead (firstn 32 msg);
                    AsciiHead (firstn 32 msg); NotValidMp3;
                    Header "AES-128-CTR (nonce=0)"; HexHead (firstn 32 msg);
                    AsciiHead (firstn 32 msg); NotValidMp3];
              files := files w |}, Ok tt)).
Proof.
  split; [|split; [|split; [|split; [|split; [|split]]]]].
  - intros [|c C] HC; [congruence | reflexivity].
  - reflexivity.
  - intros C. reflexivity.
  - intros C. reflexivity.
  - intros we name f C E. unfold trial_report. now rewrite E.
  - intros we name f C w E. rewrite trial_effect.
    unfold trial_report, trial_files. rewrite E. now rewrite app_nil_r.
  - intros lib we C w HC msg. destruct C as [|c C]; [congruence|].
    rewrite run_trials_effect.
    assert (Hx : xor_decrypt (c :: C) [] = Raise ZeroDivisionError)
      by reflexivity.
    assert (Hr : rc4_decrypt (c :: C) [] = Raise ZeroDivisionError)
      by reflexivity.
    assert (Hm : rc4mi_decrypt (c :: C) [] = Raise ZeroDivisionError)
      by reflexivity.
    assert (He : aes_ecb_decrypt lib (c :: C) [] = Ok msg) by reflexivity.
    assert (Hc : aes_cbc_decrypt lib (c :: C) [] None = Ok msg)
      by reflexivity.
    assert (Ht : aes_ctr_decrypt lib (c :: C) [] None = Ok msg)
      by reflexivity.
    assert (Hv : is_valid_mp3 msg = false) by apply error_bytes_not_mp3.
    unfold methods. cbn [flat_map]. unfold trial_report, trial_files.
    rewrite Hx, Hr, Hm, He, Hc, Ht, Hv. cbn [app].
    now rewrite app_nil_r.
Qed.

(* ================================================================== *)
(** ** The MD5 key derivation *)

Section HexText.

Lemma nibble_cases v :
  0 <= v < 16 ->
  In v [0; 1; 2; 3; 4; 5; 6; 7; 8; 9; 10; 11; 12; 13; 14; 15].
Proof. intros H. simpl. lia. Qed.

Lemma hex_digit_value v :
  0 <= v < 16 ->
  hex_value (hex_digit v) = Some v /\ lower_hex_char (hex_digit v) = true.
Proof.
  intros H. apply nibble_cases in H. simpl in H.
  repeat (destruct H as [<- | H]; [split; reflexivity|]).
  contradiction.
Qed.

Lemma lower_hex_char_digit c :
  lower_hex_char c = true ->
  exists v, hex_value c = Some v /\ 0 <= v < 16 /\ hex_digit v = c.
Proof.
  destruct c as [[] [] [] [] [] [] [] []]; intros H;
    try (vm_compute in H; discriminate H);
    eexists; (split; [cbv; reflexivity|]);
    (split; [lia | reflexivity]).
Qed.

Lemma byte_nibbles h l :
  0 <= h < 16 -> 0 <= l < 16 ->
  (h * 16 + l) / 16 = h /\ (h * 16 + l) mod 16 = l.
Proof.
  intros Hh Hl. split.
  - symmetry. apply (Z.div_unique _ _ _ l); lia.
  - symmetry. apply (Z.mod_unique _ _ h); lia.
Qed.

Lemma length_hexlify K :
  length (list_ascii_of_string (hexlify K)) = (2 * length K)%nat.
Proof. induction K as [|b K IH]; simpl; auto. rewrite IH. lia. Qed.

Lemma unhex_pairs_hexlify K :
  is_bytes K -> unhex_pairs (list_ascii_of_string (hexlify K)) = Ok K.
Proof.
  induction 1 as [|b K Hb HK IH]; cbn [hexlify list_ascii_of_string unhex_pairs].
  - reflexivity.
  - assert (Hh : 0 <= b / 16 < 16)
      by (split; [apply Z.div_pos | apply Z.div_lt_upper_bound]; lia).
    assert (Hl : 0 <= b mod 16 < 16) by (apply Z.mod_pos_bound; lia).
    destruct (hex_digit_value _ Hh) as [-> _].
    destruct (hex_digit_value _ Hl) as [-> _].
    rewrite IH. cbn [bind]. do 2 f_equal.
    pose proof (Z.div_mod b 16 ltac:(lia)). lia.
Qed.

Lemma is_lower_hex_hexlify K : is_bytes K -> is_lower_hex (hexlify K) = true.
Proof.
  unfold is_lower_hex.
  induction 1 as [|b K Hb HK IH]; cbn [hexlify list_ascii_of_string forallb].
  - reflexivity.
  - assert (Hh : 0 <= b / 16 < 16)
      by (split; [apply Z.div_pos | apply Z.div_lt_upper_bound]; lia).
    assert (Hl : 0 <= b mod 16 < 16) by (apply Z.mod_pos_bound; lia).
    destruct (hex_digit_value _ Hh) as [_ E1].
    destruct (hex_digit_value _ Hl) as [_ E2].
    rewrite E1, E2, IH. reflexivity.
Qed.

Lemma unhexlify_hexlify K : is_bytes K -> unhexlify (hexlify K) = Ok K.
Proof.
  intros HK. unfold unhexlify. rewrite length_hexlify.
  rewrite Nat.odd_mul. cbn [Nat.odd andb].
  now apply unhex_pairs_hexlify.
Qed.

Lemma unhex_pairs_canonical K :
  forall cs,
    forallb lower_hex_char cs = true ->
    unhex_pairs cs = Ok K ->
    string_of_list_ascii cs = hexlify K.
Proof.
  induction K as [|b K IH]; intros [|hi [|lo rest]] Hl E;
    cbn [unhex_pairs forallb] in *; try discriminate; auto.
  - destruct (hex_value hi), (hex_value lo); try discriminate.
    destruct (unhex_pairs rest); discriminate.
  - apply andb_true_iff in Hl. destruct Hl as [H1 Hl].
    apply andb_true_iff in Hl. destruct Hl as [H2 Hl].
    destruct (lower_hex_char_digit hi H1) as (h & Eh & Hh & <-).
    destruct (lower_hex_char_digit lo H2) as (l & El & Hlo & <-).
    rewrite Eh, El in E.
    destruct (unhex_pairs rest) as [bs | e] eqn:Er; [|discriminate].
    cbn [bind] in E. injection E as <- <-.
    cbn [string_of_list_ascii hexlify].
    destruct (byte_nibbles h l Hh Hlo) as [-> ->]. do 2 f_equal.
    now apply IH.
Qed.

Lemma lower_hex_text_canonical text K :
  is_lower_hex text = true -> unhexlify text = Ok K -> text = hexlify K.
Proof.
  intros Hl E. unfold unhexlify in E.
  destruct (Nat.odd _); [discriminate|].
  rewrite <- (string_of_list_ascii_of_string text).
  now apply unhex_pairs_canonical.
Qed.

End HexText.

Section MD5Digest.

Lemma length_le_bytes n v : length (MD5.le_bytes n v) = n.
Proof. revert v; induction n; intros v; simpl; auto. Qed.

Lemma le_bytes_is_bytes n v : is_bytes (MD5.le_bytes n v).
Proof.
  revert v; induction n as [|n IH]; intros v; simpl; constructor.
  - apply Z.mod_pos_bound. lia.
  - apply IH.
Qed.

Lemma digest_length msg :
  length (MD5.digest msg) = 16%nat /\ is_bytes (MD5.digest msg).
Proof.
  unfold MD5.digest.
  destruct (MD5.process _ MD5.init (MD5.pad msg)) as [[[a b] c] d].
  split.
  - now rewrite !length_app, !length_le_bytes.
  - unfold is_bytes. rewrite !Forall_app.
    repeat split; apply le_bytes_is_bytes.
Qed.

End MD5Digest.

(** The derivation of [main] on its own key: the digest of the 32
    characters of text, which is not the digest of the 16 raw bytes. *)
Lemma md5_key_of_main :
  md5_key secure_key_hex
  = [92; 81; 146; 247; 60; 199; 0; 47; 106; 200; 181; 54; 75; 210; 123; 40]
  /\ MD5.digest secure_key
     = [201; 179; 220; 217; 45; 73; 6; 251; 90; 201; 10; 194; 35; 138; 4; 149]
  /\ hexlify secure_key = secure_key_hex.
Proof. repeat split; vm_compute; reflexivity. Qed.

(** The reference values of RFC 1321 for the empty message and for
    [abc]. *)
Lemma md5_reference_values :
  MD5.digest (encode "")
  = [212; 29; 140; 217; 143; 0; 178; 4; 233; 128; 9; 152; 236; 248; 66; 126]
  /\ MD5.digest (encode "abc")
     = [144; 1; 80; 152; 60; 210; 79; 176; 214; 150; 63; 125; 40; 225; 127;
        114].
Proof. split; vm_compute; reflexivity. Qed.

(** The key of [main] written in capitals decodes to the same 16 bytes,
    but what [md5_key] derives from that text is not the digest of the
    key's lowercase hexadecimal text. *)
Lemma md5_key_uppercase_text :
  unhexlify "22EAA6338446D7288C0F7E627C8900C9" = Ok secure_key
  /\ hexlify secure_key = "22eaa6338446d7288c0f7e627c8900c9"%string
  /\ md5_key "22EAA6338446D7288C0F7E627C8900C9"
     = [33; 45; 28; 87; 239; 75; 195; 227; 69; 224; 248; 30; 160; 31; 208; 35]
  /\ MD5.digest (encode (hexlify secure_key))
     = [92; 81; 146; 247; 60; 199; 0; 47; 106; 200; 181; 54; 75; 210; 123; 40].
Proof. repeat split; vm_compute; reflexivity. Qed.

(** C9 (as the code has it).  [md5_key] is the MD5 digest of the key's
    hexadecimal text as it is written in [secure_key_hex], not of the
    raw key bytes: always exactly 16 bytes.  Every key has a canonical
    lowercase text, [hexlify K], the only lowercase text that decodes to
    it; when the key is written in lowercase, as in [main], the derived
    key is the digest of that canonical text, and two derivations from
    the same key give the same bytes.  For the text of [main] the
    derived key is 5c5192f7..., which is not the digest of the 16 raw
    bytes; the digest follows RFC 1321 on its reference messages. *)
Theorem hex_digest_derivation :
  (forall text,
      md5_key text = MD5.digest (encode text)
      /\ length (md5_key text) = 16%nat
      /\ is_bytes (md5_key text))
  /\ (forall K,
        is_bytes K ->
        unhexlify (hexlify K) = Ok K /\ is_lower_hex (hexlify K) = true)
  /\ (forall text K,
        unhexlify text = Ok K -> is_lower_hex text = true ->
        text = hexlify K
        /\ md5_key text = MD5.digest (encode (hexlify K)))
  /\ (forall text1 text2 K,
        unhexlify text1 = Ok K -> is_lower_hex text1 = true ->
        unhexlify text2 = Ok K -> is_lower_hex text2 = true ->
        md5_key text1 = md5_key text2)
  /\ (unhexlify secure_key_hex = Ok secure_key
      /\ is_lower_hex secure_key_hex = true
      /\ md5_key secure_key_hex
         = [92; 81; 146; 247; 60; 199; 0; 47; 106; 200; 181; 54; 75; 210;
            123; 40]
      /\ md5_key secure_key_hex <> MD5.digest secure_key)
  /\ (MD5.digest (encode "")
      = [212; 29; 140; 217; 143; 0; 178; 4; 233; 128; 9; 152; 236; 248; 66;
         126]
      /\ MD5.digest (encode "abc")
         = [144; 1; 80; 152; 60; 210; 79; 176; 214; 150; 63; 125; 40; 225;
            127; 114]).
Proof.
  split; [|split; [|split; [|split; [|split]]]].
  - intros text. split; [reflexivity|]. apply digest_length.
  - intros K HK. split.
    + now apply unhexlify_hexlify.
    + now apply is_lower_hex_hexlify.
  - intros text K E Hl.
    pose proof (lower_hex_text_canonical text K Hl E) as ->.
    split; reflexivity.
  - intros t1 t2 K E1 H1 E2 H2.
    rewrite (lower_hex_text_canonical t1 K H1 E1).
    rewrite (lower_hex_text_canonical t2 K H2 E2). reflexivity.
  - destruct md5_key_of_main as (E1 & E2 & _).
    split; [exact secure_key_unhexlify|]. split; [reflexivity|].
    split; [exact E1|]. rewrite E1, E2. discriminate.
  - exact md5_reference_values.
Qed.

Lemma hex_digest_derivation_witness :
  unhexlify (hexlify secure_key) = Ok secure_key
  /\ is_lower_hex (hexlify secure_key) = true
  /\ length (md5_key secure_key_hex) = 16%nat.
Proof.
  destruct hex_digest_derivation as (H1 & H2 & _).
  destruct (H2 secure_key) as [E1 E2].
  { unfold is_bytes, secure_key. repeat constructor; lia. }
  destruct (H1 secure_key_hex) as (_ & E3 & _).
  repeat split; assumption.
Defined.

(* ================================================================== *)
(** ** Further properties of the XOR primitive *)

Section Bytes.

Lemma lxor_byte a b :
  0 <= a < 256 -> 0 <= b < 256 -> 0 <= Z.lxor a b < 256.
Proof.
  intros Ha Hb.
  assert (H0 : 0 <= Z.lxor a b) by (apply Z.lxor_nonneg; lia).
  split; [exact H0|].
  destruct (Z.eq_dec (Z.lxor a b) 0) as [E | N]; [lia|].
  change 256 with (2 ^ 8). apply Z.log2_lt_pow2; [lia|].
  pose proof (Z.log2_lxor a b ltac:(lia) ltac:(lia)) as Hl.
  assert (La : Z.log2 a < 8).
  { destruct (Z.eq_dec a 0) as [-> | Na]; [reflexivity|].
    apply Z.log2_lt_pow2; simpl; lia. }
  assert (Lb : Z.log2 b < 8).
  { destruct (Z.eq_dec b 0) as [-> | Nb]; [reflexivity|].
    apply Z.log2_lt_pow2; simpl; lia. }
  lia.
Qed.

Lemma nth_is_byte l n : is_bytes l -> 0 <= nth n l 0 < 256.
Proof.
  intros H. destruct (Nat.lt_ge_cases n (length l)) as [Hn | Hn].
  - unfold is_bytes in H. rewrite Forall_forall in H.
    apply H. now apply nth_In.
  - rewrite nth_overflow by assumption. lia.
Qed.

Lemma xor_bytes_is_bytes a b :
  is_bytes a -> is_bytes b -> is_bytes (xor_bytes a b).
Proof.
  intros Ha. revert b. induction Ha as [|x a Hx Ha IH]; intros b Hb.
  - constructor.
  - destruct Hb as [|y b Hy Hb]; simpl; constructor.
    + now apply lxor_byte.
    + now apply IH.
Qed.

End Bytes.

Lemma length_xor_stream key j data :
  length (xor_stream key j data) = length data.
Proof. revert j; induction data; intros j; simpl; auto. Qed.

Lemma nth_xor_stream key j data i :
  (i < length data)%nat ->
  nth i (xor_stream key j data) 0
  = Z.lxor (nth i data 0)
      (nth (Z.to_nat ((j + Z.of_nat i) mod len key)) key 0).
Proof.
  revert j i; induction data as [|b data IH]; intros j [|i] Hi; simpl in Hi;
    try lia.
  - cbn [xor_stream nth]. now rewrite Z.add_0_r.
  - cbn [xor_stream nth]. rewrite IH by lia.
    replace (j + 1 + Z.of_nat i) with (j + Z.of_nat (S i)) by lia.
    reflexivity.
Qed.

Lemma xor_stream_is_bytes key j data :
  is_bytes data -> is_bytes key -> is_bytes (xor_stream key j data).
Proof.
  intros Hd Hk. revert j. induction Hd as [|b data Hb Hd IH]; intros j;
    simpl; constructor.
  - apply lxor_byte; [assumption | now apply nth_is_byte].
  - apply IH.
Qed.

(** [xor_decrypt], byte by byte: with a non-empty key it returns as many
    bytes as it was given, the byte at index [i] being
    [data[i] ^ key[i % len(key)]], and bytes stay bytes. *)
Theorem xor_decrypt_bytewise (data key : list Z) :
  key <> [] ->
  exists out,
    xor_decrypt data key = Ok out
    /\ length out = length data
    /\ (forall i, (i < length data)%nat ->
          nth i out 0
          = Z.lxor (nth i data 0) (nth (i mod length key) key 0))
    /\ (is_bytes data -> is_bytes key -> is_bytes out).
Proof.
  intros Hk. exists (xor_stream key 0 data).
  split; [now apply xor_decrypt_stream|].
  split; [apply length_xor_stream|]. split.
  - intros i Hi. rewrite nth_xor_stream by assumption.
    do 2 f_equal. rewrite Z.add_0_l. unfold len.
    now rewrite <- Nat2Z.inj_mod, Nat2Z.id.
  - apply xor_stream_is_bytes.
Qed.

Lemma xor_decrypt_bytewise_witness :
  exists out,
    xor_decrypt [0; 0; 0; 0; 0] [170; 187; 204; 221] = Ok out
    /\ length out = length [0; 0; 0; 0; 0]
    /\ (forall i, (i < length [0; 0; 0; 0; 0])%nat ->
          nth i out 0
          = Z.lxor (nth i [0; 0; 0; 0; 0] 0)
              (nth (i mod length [170; 187; 204; 221])
                   [170; 187; 204; 221] 0))
    /\ (is_bytes [0; 0; 0; 0; 0] -> is_bytes [170; 187; 204; 221] ->
        is_bytes out).
Proof.
  apply (xor_decrypt_bytewise [0; 0; 0; 0; 0] [170; 187; 204; 221]).
  discriminate.
Defined.

(* ================================================================== *)
(** ** A key and its repetitions *)

Section KeyRepetition.

Lemma concat_repeat_nil {A} m : concat (repeat (@nil A) m) = [].
Proof. induction m; simpl; auto. Qed.

Lemma length_concat_repeat {A} (K : list A) m :
  length (concat (repeat K m)) = (m * length K)%nat.
Proof.
  induction m as [|m IH]; simpl; auto. rewrite length_app, IH. lia.
Qed.

Lemma nth_concat_repeat (K : list Z) m idx :
  K <> [] -> (idx < m * length K)%nat ->
  nth idx (concat (repeat K m)) 0 = nth (idx mod length K) K 0.
Proof.
  intros HK. assert (Hn : (0 < length K)%nat)
    by (destruct K; [congruence | simpl; lia]).
  revert idx; induction m as [|m IH]; intros idx Hi; simpl in *; [lia|].
  destruct (Nat.lt_ge_cases idx (length K)) as [Hlt | Hge].
  - rewrite app_nth1 by assumption. now rewrite Nat.mod_small.
  - rewrite app_nth2 by assumption. rewrite IH by lia. f_equal.
    replace idx with ((idx - length K) + 1 * length K)%nat at 2 by lia.
    now rewrite Nat.Div0.mod_add.
Qed.

Lemma key_byte_repeat (K : list Z) m i :
  K <> [] -> (0 < m)%nat -> 0 <= i ->
  nth (Z.to_nat (i mod len (concat (repeat K m)))) (concat (repeat K m)) 0
  = nth (Z.to_nat (i mod len K)) K 0.
Proof.
  intros HK Hm Hi. pose proof (len_pos K HK) as Hn.
  assert (HL : len (concat (repeat K m)) = Z.of_nat m * len K)
    by (unfold len; rewrite length_concat_repeat; lia).
  rewrite HL.
  assert (Hb : 0 <= i mod (Z.of_nat m * len K) < Z.of_nat m * len K)
    by (apply Z.mod_pos_bound; nia).
  rewrite nth_concat_repeat; [|assumption|unfold len in *; nia].
  f_equal. apply Nat2Z.inj. rewrite Nat2Z.inj_mod.
  rewrite !Z2Nat.id by (try apply Z.mod_pos_bound; lia).
  fold (len K). apply Z.mod_mod_divide.
  exists (Z.of_nat m). reflexivity.
Qed.

Lemma xor_stream_key_repeat (K : list Z) m j data :
  K <> [] -> (0 < m)%nat -> 0 <= j ->
  xor_stream (concat (repeat K m)) j data = xor_stream K j data.
Proof.
  intros HK Hm. revert j; induction data as [|b data IH]; intros j Hj;
    cbn [xor_stream]; auto.
  rewrite key_byte_repeat by assumption. rewrite IH by lia. reflexivity.
Qed.

Lemma repeated_key_nonempty {A} (K : list A) m :
  K <> [] -> (0 < m)%nat -> concat (repeat K m) <> [].
Proof.
  intros HK Hm E. apply (f_equal (@length A)) in E.
  rewrite length_concat_repeat in E. simpl in E.
  destruct K; [congruence | simpl in E; nia].
Qed.

Lemma for_ext {A St} (f g : St -> A -> result St) xs :
  (forall s x, In x xs -> f s x = g s x) ->
  forall st, for_ xs f st = for_ xs g st.
Proof.
  induction xs as [|x xs IH]; intros H st; simpl; auto.
  rewrite H by (now left). destruct (g st x); simpl; auto.
  apply IH. intros s y Hy. apply H. now right.
Qed.

Lemma ksa_key_repeat (K : list Z) m :
  (0 < m)%nat -> ksa (concat (repeat K m)) = ksa K.
Proof.
  intros Hm. destruct K as [|k0 K0] eqn:EK.
  - now rewrite concat_repeat_nil.
  - rewrite <- EK. assert (HK : K <> []) by (rewrite EK; discriminate).
    unfold ksa. apply for_ext. intros [S_ j] i Hi.
    apply in_range in Hi. unfold ksa_step.
    destruct (getitem S_ i) as [si | e]; cbn [bind]; auto.
    pose proof (len_pos K HK) as Hn.
    pose proof (len_pos _ (repeated_key_nonempty K m HK Hm)) as Hn'.
    rewrite !mod_ok by lia. cbn [bind].
    rewrite !getitem_ok by (apply Z.mod_pos_bound; lia).
    rewrite key_byte_repeat by (assumption || lia). reflexivity.
Qed.

End KeyRepetition.

(** The XOR key is cycled: a key and the same key written [m >= 1] times
    in a row give the same result on every input (also when the key is
    empty, where both fail or both return the empty output). *)
Theorem xor_decrypt_key_repeat (data K : list Z) (m : nat) :
  (0 < m)%nat ->
  xor_decrypt data (concat (repeat K m)) = xor_decrypt data K.
Proof.
  intros Hm. destruct K as [|k0 K0] eqn:EK.
  - now rewrite concat_repeat_nil.
  - rewrite <- EK. assert (HK : K <> []) by (rewrite EK; discriminate).
    rewrite !xor_decrypt_stream
      by (assumption || now apply repeated_key_nonempty).
    f_equal. apply xor_stream_key_repeat; (assumption || lia).
Qed.

Lemma xor_decrypt_key_repeat_witness :
  xor_decrypt [1; 2; 3; 4; 5] (concat (repeat [7; 9] 3))
  = xor_decrypt [1; 2; 3; 4; 5] [7; 9].
Proof. apply (xor_decrypt_key_repeat [1; 2; 3; 4; 5] [7; 9] 3). lia. Defined.

(** The RC4 key schedule cycles the key as well: both RC4 primitives
    give the same result for a key and for that key written [m >= 1]
    times in a row. *)
Theorem rc4_key_repeat (data K : list Z) (m : nat) :
  (0 < m)%nat ->
  rc4_decrypt data (concat (repeat K m)) = rc4_decrypt data K
  /\ rc4mi_decrypt data (concat (repeat K m)) = rc4mi_decrypt data K.
Proof.
  intros Hm. unfold rc4_decrypt, rc4mi_decrypt.
  rewrite (ksa_key_repeat K m Hm). split; reflexivity.
Qed.

Lemma rc4_key_repeat_witness :
  rc4_decrypt [1; 2; 3] (concat (repeat [75; 101; 121] 2))
  = rc4_decrypt [1; 2; 3] [75; 101; 121]
  /\ rc4mi_decrypt [1; 2; 3] (concat (repeat [75; 101; 121] 2))
     = rc4mi_decrypt [1; 2; 3] [75; 101; 121].
Proof. apply (rc4_key_repeat [1; 2; 3] [75; 101; 121] 2). lia. Defined.

(* ================================================================== *)
(** ** Further properties of the RC4 primitives *)

Section RC4Output.

Lemma perm256_is_bytes S_ : is_perm256 S_ -> is_bytes S_.
Proof.
  intros H. unfold is_bytes.
  apply (Permutation_Forall (Permutation_sym H)).
  exact (range_Forall 256).
Qed.

Lemma out_byte_is_byte st : state_ok st -> 0 <= out_byte st < 256.
Proof.
  destruct st as [[i j] S_]. unfold state_ok. cbn [snd out_byte]. intros H.
  apply nth_is_byte. now apply perm256_is_bytes.
Qed.

Lemma keystream_is_bytes n st : state_ok st -> is_bytes (keystream n st).
Proof.
  revert st; induction n as [|n IH]; intros st H; cbn [keystream].
  - constructor.
  - destruct (prga_update_ok st H) as [_ H']. constructor.
    + now apply out_byte_is_byte.
    + now apply IH.
Qed.

End RC4Output.

(** The vendor variant is its own inverse too: for a non-empty key,
    [rc4mi_decrypt] applied to its own output with the same key gives
    the input back. *)
Theorem rc4mi_round_trip (C K : list Z) :
  K <> [] ->
  exists P, rc4mi_decrypt C K = Ok P /\ rc4mi_decrypt P K = Ok C.
Proof.
  intros HK. destruct (rc4_keystream_form K HK) as (S_ & j & _ & _ & H).
  destruct (H C) as [_ E]. eexists. split; [exact E|].
  destruct (H (xor_bytes C (keystream (length C) (advance 1024 (0, 0, S_)))))
    as [_ E'].
  rewrite E'.
  rewrite length_xor_bytes by (rewrite length_keystream; lia).
  rewrite xor_bytes_involutive by (rewrite length_keystream; lia).
  reflexivity.
Qed.

Lemma rc4mi_round_trip_witness :
  exists P, rc4mi_decrypt [1; 2; 3] [75; 101; 121] = Ok P
            /\ rc4mi_decrypt P [75; 101; 121] = Ok [1; 2; 3].
Proof. apply (rc4mi_round_trip [1; 2; 3] [75; 101; 121]). discriminate. Defined.

(** For a non-empty key both RC4 primitives return exactly as many bytes
    as they are given, and bytes stay bytes. *)
Theorem rc4_output_shape (C K : list Z) :
  K <> [] ->
  exists P Pmi,
    rc4_decrypt C K = Ok P /\ rc4mi_decrypt C K = Ok Pmi
    /\ length P = length C /\ length Pmi = length C
    /\ (is_bytes C -> is_bytes P /\ is_bytes Pmi).
Proof.
  intros HK. destruct (rc4_keystream_form K HK) as (S_ & j & _ & HS & H).
  destruct (H C) as [E E']. do 2 eexists.
  split; [exact E|]. split; [exact E'|].
  assert (H0 : state_ok (0, 0, S_)) by exact HS.
  rewrite !length_xor_bytes by (rewrite length_keystream; lia).
  split; [reflexivity|]. split; [reflexivity|].
  intros HC. split; apply xor_bytes_is_bytes; try assumption;
    apply keystream_is_bytes; auto using advance_ok.
Qed.

Lemma rc4_output_shape_witness :
  exists P Pmi,
    rc4_decrypt [1; 2; 3] [75; 101; 121] = Ok P
    /\ rc4mi_decrypt [1; 2; 3] [75; 101; 121] = Ok Pmi
    /\ length P = length [1; 2; 3] /\ length Pmi = length [1; 2; 3]
    /\ (is_bytes [1; 2; 3] -> is_bytes P /\ is_bytes Pmi).
Proof. apply (rc4_output_shape [1; 2; 3] [75; 101; 121]). discriminate. Defined.

(** Both RC4 primitives work as streams: for a non-empty key, the
    output on [C1 ++ C2] starts with the output on [C1] alone, followed
    by [len C2] more bytes. *)
Theorem rc4_prefix (C1 C2 K : list Z) :
  K <> [] ->
  (exists P1 P2,
      rc4_decrypt C1 K = Ok P1
      /\ rc4_decrypt (C1 ++ C2) K = Ok (P1 ++ P2)
      /\ length P2 = length C2)
  /\ (exists P1 P2,
        rc4mi_decrypt C1 K = Ok P1
        /\ rc4mi_decrypt (C1 ++ C2) K = Ok (P1 ++ P2)
        /\ length P2 = length C2).
Proof.
  intros HK. destruct (rc4_keystream_form K HK) as (S_ & j & _ & _ & H).
  destruct (H C1) as [E1 E1']. destruct (H (C1 ++ C2)) as [E E'].
  rewrite length_app, keystream_add in E, E'.
  rewrite xor_bytes_app in E, E' by now rewrite length_keystream.
  split; do 2 eexists; (split; [eassumption|]); (split; [eassumption|]);
    apply length_xor_bytes; rewrite length_keystream; lia.
Qed.

Lemma rc4_prefix_witness :
  (exists P1 P2,
      rc4_decrypt [1; 2] [75; 101; 121] = Ok P1
      /\ rc4_decrypt ([1; 2] ++ [3]) [75; 101; 121] = Ok (P1 ++ P2)
      /\ length P2 = length [3])
  /\ (exists P1 P2,
        rc4mi_decrypt [1; 2] [75; 101; 121] = Ok P1
        /\ rc4mi_decrypt ([1; 2] ++ [3]) [75; 101; 121] = Ok (P1 ++ P2)
        /\ length P2 = length [3]).
Proof. apply (rc4_prefix [1; 2] [3] [75; 101; 121]). discriminate. Defined.

(* ================================================================== *)
(** ** What the validator looks at *)

Lemma firstn_firstn_le {A} (n m : nat) (l : list A) :
  (n <= m)%nat -> firstn n (firstn m l) = firstn n l.
Proof. intros H. rewrite firstn_firstn. f_equal. lia. Qed.

Lemma nth_firstn_lt (n m : nat) (l : list Z) :
  (n < m)%nat -> nth n (firstn m l) 0 = nth n l 0.
Proof.
  revert n l; induction m as [|m IH]; intros n l H; [lia|].
  destruct l as [|x l]; [now destruct n|].
  destruct n as [|n]; simpl; auto. apply IH. lia.
Qed.

(** The verdict of [is_valid_mp3] is decided by the first four bytes:
    whatever follows them does not change it. *)
Theorem is_valid_mp3_first_four (data : list Z) :
  is_valid_mp3 data = is_valid_mp3 (firstn 4 data)
  /\ (forall tail, (4 <= length data)%nat ->
        is_valid_mp3 (data ++ tail) = is_valid_mp3 data).
Proof.
  assert (H4 : forall d, is_valid_mp3 d = is_valid_mp3 (firstn 4 d)).
  { intros d. unfold is_valid_mp3, starts_ID3.
    rewrite firstn_firstn_le by lia. rewrite !nth_firstn_lt by lia.
    unfold len. rewrite length_firstn.
    destruct (Z.ltb_spec (Z.of_nat (length d)) 4) as [Hl | Hl];
      destruct (Z.ltb_spec (Z.of_nat (Nat.min 4 (length d))) 4) as [Hm | Hm];
      try reflexivity; lia. }
  split; [apply H4|].
  intros tail Hlen. rewrite (H4 (data ++ tail)), (H4 data).
  rewrite firstn_app. replace (4 - length data)%nat with 0%nat by lia.
  cbn [firstn]. now rewrite app_nil_r.
Qed.

(* ================================================================== *)
(** ** The AES wrappers on every input *)

Section AESOutcome.

Context (lib : AESLib).

Lemma length_be_bytes n v : length (be_bytes n v) = n.
Proof.
  revert v; induction n as [|n IH]; intros v; simpl; auto.
  rewrite length_app, IH. simpl. lia.
Qed.

Lemma length_ctr_stream key nonce ctr n :
  (length nonce <= 16)%nat ->
  length (ctr_stream lib key nonce ctr n) = (16 * n)%nat.
Proof.
  intros Hn. revert ctr; induction n as [|n IH]; intros ctr;
    cbn [ctr_stream]; auto.
  rewrite length_app, block_encrypt_length, IH; [lia|].
  rewrite length_app, length_be_bytes. lia.
Qed.

Lemma blocks_cover n : (n <= 16 * ((n + 15) / 16))%nat.
Proof.
  pose proof (Nat.div_mod_eq (n + 15) 16) as H.
  pose proof (Nat.mod_upper_bound (n + 15) 16 ltac:(lia)). lia.
Qed.

Lemma ecb_body_length data key :
  key_size_ok key = true ->
  exists out,
    (cipher <- AES_new_ECB key ;;
     out <- cipher_decrypt lib cipher (padded_data data) ;;
     Ok (firstn (length data) out)) = Ok out
    /\ length out = length data.
Proof.
  intros Hk. unfold AES_new_ECB. rewrite Hk. cbn [bind].
  destruct (length_padded_data data) as (n & Hlen & _).
  destruct (cipher_decrypt_aligned lib (ECB key) (padded_data data) n Hlen I)
    as (o & -> & Hol).
  cbn [bind]. eexists. split; [reflexivity|].
  rewrite length_firstn, Hol.
  pose proof (len_padded_data data) as HL.
  pose proof (padded_len_bounds data) as [Hb _]. unfold len in *. lia.
Qed.

Lemma cbc_body_length data key iv :
  key_size_ok key = true -> length iv = 16%nat ->
  exists out,
    (cipher <- AES_new_CBC key iv ;;
     out <- cipher_decrypt lib cipher (padded_data data) ;;
     Ok (firstn (length data) out)) = Ok out
    /\ length out = length data.
Proof.
  intros Hk Hiv. unfold AES_new_CBC. rewrite Hk, Hiv. cbn [Nat.eqb bind].
  destruct (length_padded_data data) as (n & Hlen & _).
  destruct (cipher_decrypt_aligned lib (CBC key iv) (padded_data data) n
              Hlen Hiv) as (o & -> & Hol).
  cbn [bind]. eexists. split; [reflexivity|].
  rewrite length_firstn, Hol.
  pose proof (len_padded_data data) as HL.
  pose proof (padded_len_bounds data) as [Hb _]. unfold len in *. lia.
Qed.

Lemma ctr_decrypt_length key nonce data :
  (length nonce < 16)%nat ->
  exists out, cipher_decrypt lib (CTR key nonce) data = Ok out
              /\ out = xor_bytes data
                         (ctr_stream lib key nonce 0 ((length data + 15) / 16))
              /\ length out = length data.
Proof.
  intros Hn. cbn [cipher_decrypt]. eexists. split; [reflexivity|].
  split; [reflexivity|].
  apply length_xor_bytes. rewrite length_ctr_stream by lia.
  apply blocks_cover.
Qed.

End AESOutcome.

(** With a key of an accepted size (16, 24 or 32 bytes) the three AES
    wrappers, called as the registry calls them, return exactly
    [len(data)] bytes for every data length, the empty input and the
    multiples of 16 included. *)
Theorem aes_accepted_key_length (lib : AESLib) (data key : list Z) :
  key_size_ok key = true ->
  exists e c t,
    aes_ecb_decrypt lib data key = Ok e
    /\ aes_cbc_decrypt lib data key None = Ok c
    /\ aes_ctr_decrypt lib data key None = Ok t
    /\ length e = length data /\ length c = length data
    /\ length t = length data.
Proof.
  intros Hk.
  destruct (ecb_body_length lib data key Hk) as (e & He & Hel).
  destruct (cbc_body_length lib data key (repeat 0 16) Hk (repeat_length 0 16))
    as (c & Hc & Hcl).
  destruct (ctr_decrypt_length lib key (repeat 0 8) data) as (t & Ht & _ & Htl).
  { rewrite repeat_length. lia. }
  exists e, c, t.
  unfold aes_ecb_decrypt, aes_cbc_decrypt, aes_ctr_decrypt.
  rewrite He, Hc. unfold AES_new_CTR. rewrite Hk, repeat_length.
  cbn [Nat.ltb Nat.leb bind]. rewrite Ht. cbn [try_except].
  repeat split; assumption.
Qed.

Lemma aes_accepted_key_length_witness :
  exists e c t,
    aes_ecb_decrypt standin_lib (repeat 7 32) (repeat 1 24) = Ok e
    /\ aes_cbc_decrypt standin_lib (repeat 7 32) (repeat 1 24) None = Ok c
    /\ aes_ctr_decrypt standin_lib (repeat 7 32) (repeat 1 24) None = Ok t
    /\ length e = length (repeat 7 32) /\ length c = length (repeat 7 32)
    /\ length t = length (repeat 7 32).
Proof.
  apply (aes_accepted_key_length standin_lib (repeat 7 32) (repeat 1 24)).
  reflexivity.
Defined.

(** The three AES wrappers never raise, whatever the key, the data and
    the IV or nonce: they return either [len(data)] bytes or the text of
    an error message. *)
Theorem aes_wrappers_never_raise (lib : AESLib) (data key : list Z)
        (iv nonce : option (list Z)) :
  (exists out, aes_ecb_decrypt lib data key = Ok out
               /\ (length out = length data \/ exists e, out = error_bytes e))
  /\ (exists out, aes_cbc_decrypt lib data key iv = Ok out
                  /\ (length out = length data
                      \/ exists e, out = error_bytes e))
  /\ (exists out, aes_ctr_decrypt lib data key nonce = Ok out
                  /\ (length out = length data
                      \/ exists e, out = error_bytes e)).
Proof.
  destruct (key_size_ok key) eqn:Hk.
  - split; [|split].
    + destruct (ecb_body_length lib data key Hk) as (e & He & Hel).
      exists e. unfold aes_ecb_decrypt. rewrite He. auto.
    + unfold aes_cbc_decrypt.
      set (v := match iv with None => repeat 0 16 | Some iv0 => iv0 end).
      destruct (Nat.eqb_spec (length v) 16) as [Hv | Hv].
      * destruct (cbc_body_length lib data key v Hk Hv) as (c & Hc & Hcl).
        exists c. rewrite Hc. auto.
      * unfold AES_new_CBC. rewrite Hk.
        apply Nat.eqb_neq in Hv. rewrite Hv. cbn [bind try_except].
        eexists. split; [reflexivity|]. right. eauto.
    + unfold aes_ctr_decrypt.
      set (v := match nonce with None => repeat 0 8 | Some n => n end).
      unfold AES_new_CTR. rewrite Hk.
      destruct (Nat.ltb_spec (length v) 16) as [Hv | Hv].
      * destruct (ctr_decrypt_length lib key v data Hv) as (t & Ht & _ & Htl).
        cbn [bind]. rewrite Ht. exists t. auto.
      * cbn [bind try_except]. eexists. split; [reflexivity|]. right. eauto.
  - unfold aes_ecb_decrypt, aes_cbc_decrypt, aes_ctr_decrypt,
      AES_new_ECB, AES_new_CBC, AES_new_CTR. rewrite Hk.
    cbn [bind try_except].
    repeat split; eexists; (split; [reflexivity|]); right; eauto.
Qed.

(** The CTR wrapper is its own inverse: with a key of an accepted size
    and the default nonce, decrypting its output gives the input back. *)
Theorem aes_ctr_round_trip (lib : AESLib) (data key : list Z) :
  key_size_ok key = true ->
  exists P, aes_ctr_decrypt lib data key None = Ok P
            /\ aes_ctr_decrypt lib P key None = Ok data.
Proof.
  intros Hk. unfold aes_ctr_decrypt, AES_new_CTR.
  rewrite Hk, repeat_length. cbn [Nat.ltb Nat.leb bind try_except].
  assert (Hn : (length (repeat 0 8) < 16)%nat) by (rewrite repeat_length; lia).
  destruct (ctr_decrypt_length lib key (repeat 0 8) data Hn)
    as (P & HP & EP & HPl).
  exists P. split; [now rewrite HP|].
  destruct (ctr_decrypt_length lib key (repeat 0 8) P Hn)
    as (Q & HQ & EQ & HQl).
  rewrite HQ. cbn [try_except]. f_equal. rewrite EQ, HPl, EP.
  apply xor_bytes_involutive.
  rewrite length_ctr_stream by (apply Nat.lt_le_incl; exact Hn).
  apply blocks_cover.
Qed.

Lemma aes_ctr_round_trip_witness :
  exists P, aes_ctr_decrypt standin_lib [1; 2; 3] secure_key None = Ok P
            /\ aes_ctr_decrypt standin_lib P secure_key None = Ok [1; 2; 3].
Proof.
  apply (aes_ctr_round_trip standin_lib [1; 2; 3] secure_key). reflexivity.
Defined.

(** The MD5-derived key is always accepted: for every key text and every
    data, both modes of the last loop of [main] compute [len(data)]
    bytes, the same bytes as [aes_ecb_decrypt] and [aes_cbc_decrypt]
    return for that key, so the loop's [except] branch is not taken on
    account of the key. *)
Theorem md5_key_trials_succeed (lib : AESLib) (text : string)
        (encrypted_data : list Z) :
  key_size_ok (md5_key text) = true
  /\ exists e c,
      md5_key_decrypt lib MD5_ECB (md5_key text) encrypted_data = Ok e
      /\ md5_key_decrypt lib MD5_CBC (md5_key text) encrypted_data = Ok c
      /\ length e = length encrypted_data
      /\ length c = length encrypted_data
      /\ aes_ecb_decrypt lib encrypted_data (md5_key text) = Ok e
      /\ aes_cbc_decrypt lib encrypted_data (md5_key text) None = Ok c.
Proof.
  assert (Hk : key_size_ok (md5_key text) = true).
  { apply key_size_ok_16. apply digest_length. }
  split; [exact Hk|].
  destruct (ecb_body_length lib encrypted_data _ Hk) as (e & He & Hel).
  destruct (cbc_body_length lib encrypted_data _ (repeat 0 16) Hk
              (repeat_length 0 16)) as (c & Hc & Hcl).
  exists e, c. unfold md5_key_decrypt, aes_ecb_decrypt, aes_cbc_decrypt.
  rewrite He, Hc. repeat split; assumption.
Qed.

(* ================================================================== *)
(** ** The hexadecimal preview *)

Section Strings.

Lemma string_length_append (a b : string) :
  String.length (a ++ b) = (String.length a + String.length b)%nat.
Proof. induction a as [|c a IH]; simpl; auto. Qed.

Lemma string_append_assoc (a b c : string) :
  ((a ++ b) ++ c = a ++ (b ++ c))%string.
Proof. induction a as [|d a IH]; simpl; auto. now rewrite IH. Qed.

Lemma replace_char_append old new (a b : string) :
  replace_char old new (a ++ b)
  = (replace_char old new a ++ replace_char old new b)%string.
Proof.
  induction a as [|c a IH]; simpl; auto.
  destruct (Ascii.eqb c old); simpl; rewrite IH; auto.
  now rewrite string_append_assoc.
Qed.

Lemma chars_append (a b : string) :
  list_ascii_of_string (a ++ b)
  = list_ascii_of_string a ++ list_ascii_of_string b.
Proof. induction a as [|c a IH]; simpl; auto. now rewrite IH. Qed.

(** A character of [s.replace(old, new)] comes from [new] or is a
    character of [s] other than [old]. *)
Lemma replace_char_chars old new s c :
  In c (list_ascii_of_string (replace_char old new s)) ->
  In c (list_ascii_of_string new)
  \/ (In c (list_ascii_of_string s) /\ c <> old).
Proof.
  induction s as [|d s IH]; simpl; [tauto|].
  destruct (Ascii.eqb_spec d old) as [-> | Hd].
  - rewrite chars_append, in_app_iff. intros [H | H]; [now left|].
    destruct (IH H) as [H1 | [H1 H2]]; auto.
  - simpl. intros [<- | H]; [right; auto|].
    destruct (IH H) as [H1 | [H1 H2]]; auto.
Qed.

Lemma replace_char_absent old new s :
  ~ In old (list_ascii_of_string s) -> replace_char old new s = s.
Proof.
  induction s as [|d s IH]; simpl; auto. intros H.
  destruct (Ascii.eqb_spec d old) as [-> | Hd]; [tauto|].
  f_equal. apply IH. tauto.
Qed.

Lemma hex_digit_not_space v : 0 <= v < 16 -> hex_digit v <> " "%char.
Proof.
  intros H. apply nibble_cases in H. simpl in H.
  repeat (destruct H as [<- | H]; [discriminate|]). contradiction.
Qed.

Lemma byte_nibble_bounds b :
  0 <= b < 256 -> 0 <= b / 16 < 16 /\ 0 <= b mod 16 < 16.
Proof.
  intros H. split.
  - split; [apply Z.div_pos | apply Z.div_lt_upper_bound]; lia.
  - apply Z.mod_pos_bound. lia.
Qed.

Lemma format_02x_no_space b :
  0 <= b < 256 -> replace_char " " "" (format_02x b) = format_02x b.
Proof.
  intros H. destruct (byte_nibble_bounds b H) as [Hh Hl].
  apply replace_char_absent. unfold format_02x. simpl.
  intros [E | [E | []]]; revert E; now apply hex_digit_not_space.
Qed.

Lemma join_space_hexlify l :
  is_bytes l ->
  replace_char " " "" (join " " (map format_02x l)) = hexlify l
  /\ String.length (join " " (map format_02x l)) = (3 * length l - 1)%nat.
Proof.
  induction 1 as [|b l Hb Hl [IH1 IH2]]; [split; reflexivity|].
  destruct l as [|b' l'].
  - cbn [map join hexlify length]. split; [|reflexivity].
    now apply format_02x_no_space.
  - change (join " " (map format_02x (b :: b' :: l')))
      with (format_02x b ++ " " ++ join " " (map format_02x (b' :: l')))%string.
    split.
    + rewrite !replace_char_append, IH1, format_02x_no_space by assumption.
      reflexivity.
    + rewrite !string_length_append, IH2. unfold format_02x.
      cbn [String.length length]. lia.
Qed.

Lemma firstn_is_bytes n l : is_bytes l -> is_bytes (firstn n l).
Proof.
  unfold is_bytes. intros H. revert n.
  induction H as [|b l Hb Hl IH]; intros [|n]; simpl; constructor; auto.
Qed.

Lemma slice_to_is_bytes data k : is_bytes data -> is_bytes (slice_to data k).
Proof.
  intros H. unfold slice_to. destruct (0 <=? k); now apply firstn_is_bytes.
Qed.

End Strings.

(** [print_hex] shows exactly the bytes it is given: on a [bytes]
    object, taking the spaces out of [print_hex(data, k)] and decoding
    the hexadecimal text gives [data[:k]] back, and the text has
    [3 * len(data[:k]) - 1] characters (none for an empty slice). *)
Theorem print_hex_round_trip (data : list Z) (k : Z) :
  is_bytes data ->
  unhexlify (replace_char " " "" (print_hex data k)) = Ok (slice_to data k)
  /\ String.length (print_hex data k)
     = (3 * length (slice_to data k) - 1)%nat
  /\ (0 <= k -> slice_to data k = firstn (Z.to_nat k) data).
Proof.
  intros H. pose proof (slice_to_is_bytes data k H) as Hs.
  destruct (join_space_hexlify _ Hs) as [E1 E2]. unfold print_hex.
  rewrite E1, E2. split; [now apply unhexlify_hexlify|].
  split; [reflexivity|].
  intros Hk. unfold slice_to. apply Z.leb_le in Hk. now rewrite Hk.
Qed.

Lemma print_hex_round_trip_witness :
  unhexlify (replace_char " " "" (print_hex miui_iv 16)) = Ok (slice_to miui_iv 16)
  /\ String.length (print_hex miui_iv 16)
     = (3 * length (slice_to miui_iv 16) - 1)%nat
  /\ (0 <= 16 -> slice_to miui_iv 16 = firstn (Z.to_nat 16) miui_iv).
Proof.
  apply (print_hex_round_trip miui_iv 16).
  unfold is_bytes, miui_iv. repeat constructor; lia.
Defined.

(* ================================================================== *)
(** ** The names of the output files *)

(** The file a valid trial is saved to is [/tmp/decrypted_<stem>.mp3],
    where the stem contains no space, parenthesis or equals sign, and
    is the method name itself when the name has none of them. *)
Theorem output_file_stem (name : string) :
  exists stem,
    output_file name = ("/tmp/decrypted_" ++ stem ++ ".mp3")%string
    /\ (forall c, In c (list_ascii_of_string stem) ->
          c <> " "%char /\ c <> "("%char /\ c <> ")"%char /\ c <> "="%char)
    /\ ((forall c, In c (list_ascii_of_string name) ->
           c <> " "%char /\ c <> "("%char /\ c <> ")"%char /\ c <> "="%char) ->
        stem = name).
Proof.
  eexists. split; [reflexivity|]. split.
  - intros c H.
    apply replace_char_chars in H. destruct H as [[] | [H N4]].
    apply replace_char_chars in H. destruct H as [[] | [H N3]].
    apply replace_char_chars in H. destruct H as [[] | [H N2]].
    apply replace_char_chars in H. destruct H as [H | [H N1]].
    + simpl in H. destruct H as [<- | []]. repeat split; discriminate.
    + auto.
  - intros H.
    rewrite (replace_char_absent " " "_" name)
      by (intros Hc; destruct (H _ Hc) as (? & ? & ? & ?); congruence).
    rewrite (replace_char_absent "(" "" name)
      by (intros Hc; destruct (H _ Hc) as (? & ? & ? & ?); congruence).
    rewrite (replace_char_absent ")" "" name)
      by (intros Hc; destruct (H _ Hc) as (? & ? & ? & ?); congruence).
    apply replace_char_absent. intros Hc.
    destruct (H _ Hc) as (? & ? & ? & ?). congruence.
Qed.

(* ================================================================== *)
(** ** The extra MIUI test *)

(** The MIUI test of [main] never raises.  With a key of an accepted
    size it decrypts like [aes_ctr_decrypt] with the first 8 bytes of
    [miui_iv] as nonce, prints the head of the [len(data)] output bytes
    and the verdict, attempts no write when the validator rejects the
    output, and when the validator accepts it and the write goes
    through, the write to [/tmp/decrypted_miui_ctr.mp3] holds that
    output.  With a rejected key it prints the failure line for the
    library's error and attempts no write: here, unlike in the
    registry's CTR wrapper, the error is not turned into output bytes. *)
Theorem miui_ctr_trial_effect (lib : AESLib)
        (write_error : string -> option exn)
        (encrypted_data secure_key : list Z) (w : world) :
  let path := "/tmp/decrypted_miui_ctr.mp3"%string in
  let (w', r) := miui_ctr_trial lib write_error encrypted_data secure_key w in
  r = Ok tt
  /\ (key_size_ok secure_key = false ->
      stdout w' = stdout w ++ [DecryptFailed (key_size_error secure_key)]
      /\ files w' = files w)
  /\ (key_size_ok secure_key = true ->
      exists out,
        aes_ctr_decrypt lib encrypted_data secure_key (Some (firstn 8 miui_iv))
        = Ok out
        /\ length out = length encrypted_data
        /\ stdout w'
           = stdout w ++ HexHead (firstn 32 out)
               :: (if is_valid_mp3 out then
                     ValidMp3 :: match write_error path with
                                 | Some e => [DecryptFailed e]
                                 | None => [SavedTo path]
                                 end
                   else [NotValidMp3])
        /\ (is_valid_mp3 out = false -> files w' = files w)
        /\ (is_valid_mp3 out = true -> write_error path = None ->
            files w' = files w ++ [(path, out)])).
Proof.
  intros path. destruct w as [out0 fs].
  unfold miui_ctr_trial, aes_ctr_decrypt, io_try, io_bind, io_lift, io_ret,
    print, write_file, AES_new_CTR.
  change (slice_to miui_iv 8) with (firstn 8 miui_iv).
  destruct (key_size_ok secure_key) eqn:Hk; cbn [stdout files].
  - assert (Hn : (length (firstn 8 miui_iv) < 16)%nat) by (simpl; lia).
    destruct (ctr_decrypt_length lib secure_key (firstn 8 miui_iv)
                encrypted_data Hn) as (t & Ht & _ & Htl).
    apply Nat.ltb_lt in Hn. rewrite Hn. cbn [bind try_except].
    rewrite Ht. cbn [stdout files try_except].
    fold path.
    destruct (is_valid_mp3 t) eqn:Hv; cbn [stdout files].
    + destruct (write_error path) as [e|] eqn:Hw; cbn [stdout files];
        (split; [reflexivity|]); (split; [discriminate|]); intros _;
        exists t; rewrite Hv; rewrite <- ?app_assoc, ?app_nil_r;
        repeat split; auto; discriminate.
    + split; [reflexivity|]. split; [discriminate|]. intros _.
      exists t. rewrite Hv. rewrite <- ?app_assoc, ?app_nil_r.
      repeat split; auto; discriminate.
  - cbn [stdout files]. split; [reflexivity|]. split; [|discriminate].
    intros _. split; reflexivity.
Qed.

(* ================================================================== *)
(** ** [main] as a whole *)

Section Main.

Context (lib : AESLib) (write_error : string -> option exn).

Lemma miui_ctr_trial_run encrypted_data key w :
  miui_ctr_trial lib write_error encrypted_data key w
  = ({| stdout := stdout w ++ miui_report lib write_error encrypted_data key;
        files := files w ++ miui_files lib write_error encrypted_data key |},
     Ok tt).
Proof.
  destruct w as [out0 fs].
  unfold miui_ctr_trial, miui_report, miui_files, miui_decrypted,
    io_try, io_bind, io_lift, io_ret, print, write_file.
  change (slice_to miui_iv 8) with (firstn 8 miui_iv).
  destruct (AES_new_CTR key (firstn 8 miui_iv)) as [c | e];
    cbn [bind stdout files]; [|now rewrite app_nil_r].
  destruct (cipher_decrypt lib c encrypted_data) as [d | e];
    cbn [stdout files]; [|now rewrite app_nil_r].
  destruct (is_valid_mp3 d); cbn [stdout files].
  - destruct (write_error "/tmp/decrypted_miui_ctr.mp3");
      cbn [stdout files]; rewrite <- ?app_assoc, ?app_nil_r; reflexivity.
  - rewrite <- ?app_assoc, ?app_nil_r. reflexivity.
Qed.

(** The files [main] has written when the read succeeded. *)
Lemma main_written encrypted_data :
  written (main lib write_error (ReadOk encrypted_data))
  = flat_map (trial_files write_error encrypted_data secure_key) (methods lib)
    ++ miui_files lib write_error encrypted_data secure_key
  /\ outcome (main lib write_error (ReadOk encrypted_data)) = Ok tt.
Proof.
  unfold main. rewrite secure_key_unhexlify.
  rewrite run_trials_effect. rewrite miui_ctr_trial_run.
  cbn [stdout files written outcome app]. split; reflexivity.
Qed.

Lemma secure_key_size : key_size_ok secure_key = true.
Proof. reflexivity. Qed.

Lemma accepted_key_nonempty (key : list Z) :
  key_size_ok key = true -> key <> [].
Proof. intros H ->. discriminate H. Qed.

(** Each method of the registry returns [len(data)] bytes on a key of an
    accepted AES size. *)
Lemma methods_output encrypted_data key name f :
  key_size_ok key = true ->
  In (name, f) (methods lib) ->
  exists decrypted,
    f encrypted_data key = Ok decrypted
    /\ length decrypted = length encrypted_data.
Proof.
  intros Hk. pose proof (accepted_key_nonempty key Hk) as HK.
  unfold methods.
  intros [E | [E | [E | [E | [E | [E | []]]]]]]; injection E as _ <-.
  - rewrite xor_decrypt_stream by assumption. eexists.
    split; [reflexivity | apply length_xor_stream].
  - destruct (rc4_keystream_form key HK) as (S_ & j & _ & _ & H).
    destruct (H encrypted_data) as [E _]. rewrite E. eexists.
    split; [reflexivity|].
    apply length_xor_bytes. rewrite length_keystream. lia.
  - destruct (rc4_keystream_form key HK) as (S_ & j & _ & _ & H).
    destruct (H encrypted_data) as [_ E]. rewrite E. eexists.
    split; [reflexivity|].
    apply length_xor_bytes. rewrite length_keystream. lia.
  - destruct (ecb_body_length lib encrypted_data key Hk) as (o & Ho & Hl).
    unfold aes_ecb_decrypt. rewrite Ho. exists o. split; [reflexivity | exact Hl].
  - destruct (cbc_body_length lib encrypted_data key (repeat 0 16)
                Hk (repeat_length 0 16)) as (o & Ho & Hl).
    unfold aes_cbc_decrypt. rewrite Ho. exists o. split; [reflexivity | exact Hl].
  - assert (Hn : (length (repeat 0%Z 8) < 16)%nat)
      by (rewrite repeat_length; lia).
    destruct (ctr_decrypt_length lib key (repeat 0 8) encrypted_data Hn)
      as (o & Ho & _ & Hl).
    unfold aes_ctr_decrypt, AES_new_CTR.
    rewrite Hk. apply Nat.ltb_lt in Hn. rewrite Hn.
    cbn [bind]. rewrite Ho. exists o. split; [reflexivity | exact Hl].
Qed.

Lemma trial_files_entry encrypted_data key m path content :
  In (path, content) (trial_files write_error encrypted_data key m) ->
  path = output_file (fst m)
  /\ snd m encrypted_data key = Ok content
  /\ is_valid_mp3 content = true
  /\ write_error path = None.
Proof.
  destruct m as [name f]. unfold trial_files. cbn [fst snd].
  destruct (f encrypted_data key) as [d | e]; [|intros []].
  destruct (is_valid_mp3 d) eqn:Hv; [|intros []].
  destruct (write_error (output_file name)) eqn:Hw; [intros []|].
  intros [E | []]. injection E as <- <-. auto.
Qed.

Lemma trial_files_cases encrypted_data key m :
  trial_files write_error encrypted_data key m = []
  \/ exists content,
      trial_files write_error encrypted_data key m
      = [(output_file (fst m), content)].
Proof.
  destruct m as [name f]. unfold trial_files. cbn [fst].
  destruct (f encrypted_data key) as [d | e]; [|now left].
  destruct (is_valid_mp3 d); [|now left].
  destruct (write_error (output_file name)); [now left|].
  right. eauto.
Qed.

Lemma trial_files_short encrypted_data key m :
  (length (trial_files write_error encrypted_data key m) <= 1)%nat.
Proof.
  destruct m as [name f]. unfold trial_files.
  destruct (f encrypted_data key) as [d | e]; [|simpl; lia].
  destruct (is_valid_mp3 d); [|simpl; lia].
  destruct (write_error (output_file name)); simpl; lia.
Qed.

Lemma miui_files_entry encrypted_data path content :
  In (path, content) (miui_files lib write_error encrypted_data secure_key) ->
  path = "/tmp/decrypted_miui_ctr.mp3"%string
  /\ is_valid_mp3 content = true
  /\ length content = length encrypted_data
  /\ write_error path = None
  /\ miui_decrypted lib encrypted_data secure_key = Ok content.
Proof.
  unfold miui_files.
  assert (Hn : (length (firstn 8 miui_iv) < 16)%nat) by (simpl; lia).
  destruct (ctr_decrypt_length lib secure_key (firstn 8 miui_iv)
              encrypted_data Hn) as (o & Ho & _ & Hl).
  assert (Hd : miui_decrypted lib encrypted_data secure_key = Ok o).
  { unfold miui_decrypted, AES_new_CTR. rewrite secure_key_size.
    apply Nat.ltb_lt in Hn. rewrite Hn. cbn [bind]. exact Ho. }
  rewrite Hd.
  destruct (is_valid_mp3 o) eqn:Hv; [|intros []].
  destruct (write_error "/tmp/decrypted_miui_ctr.mp3") eqn:Hw; [intros []|].
  intros [E | []]. injection E as <- <-. auto.
Qed.

Lemma miui_files_cases encrypted_data key :
  miui_files lib write_error encrypted_data key = []
  \/ exists content,
      miui_files lib write_error encrypted_data key
      = [("/tmp/decrypted_miui_ctr.mp3"%string, content)].
Proof.
  unfold miui_files.
  destruct (miui_decrypted lib encrypted_data key) as [d | e]; [|now left].
  destruct (is_valid_mp3 d); [|now left].
  destruct (write_error "/tmp/decrypted_miui_ctr.mp3"); [now left|].
  right. eauto.
Qed.

Lemma miui_files_short encrypted_data key :
  (length (miui_files lib write_error encrypted_data key) <= 1)%nat.
Proof.
  destruct (miui_files_cases encrypted_data key) as [-> | [c ->]];
    simpl; lia.
Qed.

End Main.

(** [main] raises only what reading the file raises, a missing file
    excepted: after a successful read it returns normally whatever the
    library and the file system do; on [FileNotFoundError] it prints
    its two messages after the title, runs no trial, writes no file and
    returns; any other read error leaves [main], nothing written. *)
Theorem main_outcome (lib : AESLib) (write_error : string -> option exn) :
  (forall encrypted_data,
      outcome (main lib write_error (ReadOk encrypted_data)) = Ok tt)
  /\ (outcome (main lib write_error FileNotFound) = Ok tt
      /\ written (main lib write_error FileNotFound) = []
      /\ printed (main lib write_error FileNotFound)
         = [Say rule; Say "小米笔记音频文件解密测试"; Say rule;
            Say (nl ++ "❌ 文件不存在: " ++ audio_file);
            Say "请更新 audio_file 变量为实际的音频文件路径"])
  /\ (forall e,
        outcome (main lib write_error (ReadError e)) = Raise e
        /\ written (main lib write_error (ReadError e)) = []).
Proof.
  split; [|split].
  - intros d. apply main_written.
  - repeat split.
  - intros e. split; reflexivity.
Qed.

(** The writes [main] completes after a successful read: at most seven,
    no two to the same path, each to the path of one of the six registry
    methods or to the MIUI path, each answered without error by the file
    system and each holding a candidate that the validator accepts and
    that is exactly as long as the encrypted input.  When the file
    system fails no write, these are exactly the accepted candidates. *)
Theorem main_saves_valid_candidates (lib : AESLib)
        (write_error : string -> option exn) (encrypted_data : list Z) :
  let saved := written (main lib write_error (ReadOk encrypted_data)) in
  (length saved <= 7)%nat
  /\ NoDup (map fst saved)
  /\ (forall path content,
        In (path, content) saved ->
        write_error path = None
        /\ is_valid_mp3 content = true
        /\ length content = length encrypted_data
        /\ (path = "/tmp/decrypted_miui_ctr.mp3"%string
            /\ miui_decrypted lib encrypted_data secure_key = Ok content
            \/ exists name f, In (name, f) (methods lib)
                              /\ path = output_file name
                              /\ f encrypted_data secure_key = Ok content))
  /\ ((forall path, write_error path = None) ->
      (forall name f content,
          In (name, f) (methods lib) ->
          f encrypted_data secure_key = Ok content ->
          is_valid_mp3 content = true ->
          In (output_file name, content) saved)
      /\ (forall content,
            miui_decrypted lib encrypted_data secure_key = Ok content ->
            is_valid_mp3 content = true ->
            In ("/tmp/decrypted_miui_ctr.mp3"%string, content) saved)).
Proof.
  intros saved. subst saved.
  destruct (main_written lib write_error encrypted_data) as [-> _].
  split; [|split; [|split]].
  - rewrite length_app.
    assert (H6 : (length (flat_map (trial_files write_error encrypted_data
                                      secure_key) (methods lib)) <= 6)%nat).
    { unfold methods. cbn [flat_map]. rewrite !length_app. cbn [length].
      repeat match goal with
             | |- context [length (trial_files ?w ?d ?k ?m)] =>
                 let H := fresh in
                 pose proof (trial_files_short w d k m) as H;
                 generalize dependent (length (trial_files w d k m)); intros
             end.
      lia. }
    pose proof (miui_files_short lib write_error encrypted_data secure_key).
    lia.
  - rewrite map_app. unfold methods. cbn [flat_map]. rewrite !map_app.
    repeat match goal with
           | |- context [trial_files ?w ?d ?k ?m] =>
               destruct (trial_files_cases w d k m) as [-> | [? ->]]
           end;
      destruct (miui_files_cases lib write_error encrypted_data secure_key)
        as [-> | [? ->]];
      cbv [map fst app output_file replace_char String.append Ascii.eqb
           Bool.eqb];
      repeat (constructor; [simpl; intuition discriminate|]);
      constructor.
  - intros path content Hin. apply in_app_or in Hin. destruct Hin as [H | H].
    + apply in_flat_map in H. destruct H as ([name f] & Hm & H).
      apply trial_files_entry in H. cbn [fst snd] in H.
      destruct H as (-> & Hf & Hv & Hw).
      split; [exact Hw|]. split; [exact Hv|]. split.
      * destruct (methods_output lib encrypted_data secure_key name f
                    (secure_key_size) Hm) as (d & Hd & Hl).
        rewrite Hd in Hf. injection Hf as <-. exact Hl.
      * right. exists name, f. auto.
    + apply miui_files_entry in H. destruct H as (-> & Hv & Hl & Hw & Hd).
      auto 10.
  - intros Hfs. split.
    + intros name f content Hm Hf Hv. apply in_or_app. left.
      apply in_flat_map. exists (name, f). split; [exact Hm|].
      unfold trial_files. rewrite Hf, Hv, Hfs. now left.
    + intros content Hd Hv. apply in_or_app. right.
      unfold miui_files. rewrite Hd, Hv, Hfs. now left.
Qed.

Lemma main_saves_valid_candidates_witness :
  let saved :=
    written (main standin_lib (fun _ => None) (ReadOk [73; 68; 51; 4; 0])) in
  (length saved <= 7)%nat /\ NoDup (map fst saved).
Proof.
  intros saved.
  destruct (main_saves_valid_candidates standin_lib (fun _ => None)
              [73; 68; 51; 4; 0]) as (H1 & H2 & _).
  split; assumption.
Defined.

(* ================================================================== *)
(** ** The registry on a key of an AES size *)

(** With a key of 16, 24 or 32 bytes every method of the registry
    returns normally, with [len(data)] bytes, on every input; the only
    failure lines the trial loop can then print are errors of the file
    system on saving an accepted candidate. *)
Theorem registry_methods_total (lib : AESLib) (encrypted_data key : list Z) :
  key_size_ok key = true ->
  (forall name f,
      In (name, f) (methods lib) ->
      exists decrypted,
        f encrypted_data key = Ok decrypted
        /\ length decrypted = length encrypted_data)
  /\ (forall write_error e,
        In (DecryptFailed e)
           (stdout (fst (run_trials write_error (methods lib) encrypted_data
                           key {| stdout := []; files := [] |}))) ->
        exists name f,
          In (name, f) (methods lib)
          /\ write_error (output_file name) = Some e).
Proof.
  intros Hk.
  assert (Hm : forall name f,
             In (name, f) (methods lib) ->
             exists decrypted,
               f encrypted_data key = Ok decrypted
               /\ length decrypted = length encrypted_data)
    by (intros name f; now apply methods_output).
  split; [exact Hm|].
  intros we e. rewrite run_trials_effect. cbn [fst stdout app].
  intros Hin. apply in_flat_map in Hin.
  destruct Hin as ([name f] & Hmf & Hin).
  exists name, f. split; [exact Hmf|].
  destruct (Hm name f Hmf) as (d & Hd & _).
  unfold trial_report in Hin. rewrite Hd in Hin.
  destruct Hin as [Hin | [Hin | [Hin | Hin]]]; try discriminate.
  destruct (is_valid_mp3 d).
  - destruct Hin as [Hin | Hin]; [discriminate|].
    destruct (we (output_file name)) as [e' |].
    + destruct Hin as [Hin | []]. now injection Hin as ->.
    + destruct Hin as [Hin | []]. discriminate.
  - destruct Hin as [Hin | []]. discriminate.
Qed.

Lemma registry_methods_total_witness :
  (forall name f,
      In (name, f) (methods standin_lib) ->
      exists decrypted,
        f [1; 2; 3] secure_key = Ok decrypted
        /\ length decrypted = length [1; 2; 3])
  /\ (forall write_error e,
        In (DecryptFailed e)
           (stdout (fst (run_trials write_error (methods standin_lib) [1; 2; 3]
                           secure_key {| stdout := []; files := [] |}))) ->
        exists name f,
          In (name, f) (methods standin_lib)
          /\ write_error (output_file name) = Some e).
Proof.
  apply (registry_methods_total standin_lib [1; 2; 3] secure_key).
  reflexivity.
Defined.

(* ================================================================== *)
(** ** Long keys and reused keystreams *)

Lemma ksa_long_key (K extra : list Z) :
  (256 <= length K)%nat -> ksa (K ++ extra) = ksa K.
Proof.
  intros HL. unfold ksa. apply for_ext. intros [S_ j] i Hi.
  apply in_range in Hi. unfold ksa_step.
  destruct (getitem S_ i) as [si | e]; cbn [bind]; auto.
  assert (H1 : 256 <= len K) by (unfold len; lia).
  assert (H2 : len (K ++ extra) = len K + len extra)
    by (unfold len; rewrite length_app; lia).
  pose proof (len_nonneg extra) as H3.
  rewrite !mod_ok by lia. cbn [bind].
  rewrite !Z.mod_small by lia.
  rewrite !getitem_ok by lia.
  rewrite app_nth1 by (unfold len in *; lia). reflexivity.
Qed.

(** The RC4 key schedule reads at most the first 256 bytes of the key:
    bytes appended to a key of 256 bytes or more change nothing. *)
Theorem rc4_long_key (data K extra : list Z) :
  (256 <= length K)%nat ->
  rc4_decrypt data (K ++ extra) = rc4_decrypt data K
  /\ rc4mi_decrypt data (K ++ extra) = rc4mi_decrypt data K.
Proof.
  intros HL. unfold rc4_decrypt, rc4mi_decrypt.
  rewrite (ksa_long_key K extra HL). split; reflexivity.
Qed.

Lemma rc4_long_key_witness :
  rc4_decrypt [1; 2; 3] (range 256 ++ [9; 9]) = rc4_decrypt [1; 2; 3] (range 256)
  /\ rc4mi_decrypt [1; 2; 3] (range 256 ++ [9; 9])
     = rc4mi_decrypt [1; 2; 3] (range 256).
Proof.
  apply (rc4_long_key [1; 2; 3] (range 256) [9; 9]).
  rewrite length_range. lia.
Defined.

Lemma xor_bytes_same_stream a b ks :
  length a = length b -> (length a <= length ks)%nat ->
  xor_bytes (xor_bytes a ks) (xor_bytes b ks) = xor_bytes a b.
Proof.
  revert b ks; induction a as [|x a IH]; intros [|y b] [|k ks] Hab Hk;
    simpl in *; try lia; auto.
  rewrite IH by lia. f_equal.
  rewrite (Z.lxor_comm y k), Z.lxor_assoc, <- (Z.lxor_assoc k k y).
  now rewrite Z.lxor_nilpotent, Z.lxor_0_l.
Qed.

Lemma xor_stream_as_bytes key j data :
  exists ks, length ks = length data
             /\ xor_stream key j data = xor_bytes data ks
             /\ forall data', length data' = length data ->
                  xor_stream key j data' = xor_bytes data' ks.
Proof.
  revert j; induction data as [|b data IH]; intros j.
  - exists []. repeat split. intros [|b' d'] H; [reflexivity | discriminate].
  - destruct (IH (j + 1)) as (ks & Hl & E & H).
    exists (nth (Z.to_nat (j mod len key)) key 0 :: ks).
    cbn [xor_stream xor_bytes length]. rewrite E, Hl.
    repeat split. intros [|b' d'] Hd; [discriminate|].
    cbn [xor_stream xor_bytes]. rewrite H by (simpl in Hd; lia).
    reflexivity.
Qed.

(** The three stream primitives add a keystream that depends on the key
    and the position only: the outputs for two inputs of the same
    length under the same non-empty key XOR to the XOR of the inputs. *)
Theorem keystream_reuse (C1 C2 K : list Z) :
  K <> [] -> length C1 = length C2 ->
  (exists P1 P2, xor_decrypt C1 K = Ok P1 /\ xor_decrypt C2 K = Ok P2
                 /\ xor_bytes P1 P2 = xor_bytes C1 C2)
  /\ (exists P1 P2, rc4_decrypt C1 K = Ok P1 /\ rc4_decrypt C2 K = Ok P2
                    /\ xor_bytes P1 P2 = xor_bytes C1 C2)
  /\ (exists P1 P2, rc4mi_decrypt C1 K = Ok P1 /\ rc4mi_decrypt C2 K = Ok P2
                    /\ xor_bytes P1 P2 = xor_bytes C1 C2).
Proof.
  intros HK HL. split; [|split].
  - destruct (xor_stream_as_bytes K 0 C1) as (ks & Hl & E1 & H).
    do 2 eexists. rewrite !xor_decrypt_stream by assumption.
    split; [reflexivity|]. split; [reflexivity|].
    rewrite E1, (H C2) by lia.
    apply xor_bytes_same_stream; lia.
  - destruct (rc4_keystream_form K HK) as (S_ & j & _ & _ & H).
    destruct (H C1) as [E1 _]. destruct (H C2) as [E2 _].
    do 2 eexists. split; [exact E1|]. split; [exact E2|].
    rewrite <- HL. apply xor_bytes_same_stream; [assumption|].
    rewrite length_keystream. lia.
  - destruct (rc4_keystream_form K HK) as (S_ & j & _ & _ & H).
    destruct (H C1) as [_ E1]. destruct (H C2) as [_ E2].
    do 2 eexists. split; [exact E1|]. split; [exact E2|].
    rewrite <- HL. apply xor_bytes_same_stream; [assumption|].
    rewrite length_keystream. lia.
Qed.

Lemma keystream_reuse_witness :
  (exists P1 P2, xor_decrypt [1; 2; 3] [75; 101] = Ok P1
                 /\ xor_decrypt [4; 5; 6] [75; 101] = Ok P2
                 /\ xor_bytes P1 P2 = xor_bytes [1; 2; 3] [4; 5; 6])
  /\ (exists P1 P2, rc4_decrypt [1; 2; 3] [75; 101] = Ok P1
                    /\ rc4_decrypt [4; 5; 6] [75; 101] = Ok P2
                    /\ xor_bytes P1 P2 = xor_bytes [1; 2; 3] [4; 5; 6])
  /\ (exists P1 P2, rc4mi_decrypt [1; 2; 3] [75; 101] = Ok P1
                    /\ rc4mi_decrypt [4; 5; 6] [75; 101] = Ok P2
                    /\ xor_bytes P1 P2 = xor_bytes [1; 2; 3] [4; 5; 6]).
Proof.
  apply (keystream_reuse [1; 2; 3] [4; 5; 6] [75; 101]);
    [discriminate | reflexivity].
Defined.
